(** * Describing-Data: the helper functions of the course notebooks

    The repository is three Jupyter notebooks.  Its own code is
    - [text_cleaner] (notebook 4.4.4, word2vec over the Austen corpus),
    - [word_topic] and [top_words] (notebook Newsgroups, LSA/LDA/NMF),
    - the top-level cells that call scikit-learn and print the results.

    Everything else is library code (re, numpy, pandas, scikit-learn).  The
    parts of the libraries the helpers go through are modelled here; what a
    library computes numerically (floating point arithmetic, sorting order
    among ties, model fitting, random draws) is a parameter of the section
    that uses it. *)

From Stdlib Require Import String Ascii DecimalString.
From Stdlib Require Import List NArith ZArith Arith Bool Lia.
From Stdlib Require Import Permutation Sorted.
Import ListNotations.

Set Implicit Arguments.

(** ** Python strings *)

(** A Python [str] is a sequence of Unicode code points. *)
Definition char := N.
Definition str := list char.

(** An ASCII literal as a [str]. *)
Definition py (s : string) : str := map N_of_ascii (list_ascii_of_string s).

Definition ch_space : char := 32%N.
Definition ch_newline : char := 10%N.
Definition ch_dash : char := 45%N.
Definition ch_lbracket : char := 91%N.
Definition ch_rbracket : char := 93%N.

(** [str.isspace] for one code point: the table of CPython's
    [_PyUnicode_IsWhitespace], which [str.split()] uses. *)
Definition is_space (c : char) : bool :=
  ((9 <=? c) && (c <=? 13) || (28 <=? c) && (c <=? 32)
   || (c =? 133) || (c =? 160) || (c =? 5760)
   || (8192 <=? c) && (c <=? 8202)
   || (c =? 8232) || (c =? 8233) || (c =? 8239) || (c =? 8287)
   || (c =? 12288))%N.

(** The ASCII block of the decimal-digit table.  The full table (Unicode
    category Nd) depends on the interpreter's Unicode database and is a
    parameter of [text_cleaner]; this instance is used to evaluate the cleaner
    on inputs that hold no digit outside ASCII. *)
Definition ascii_decimal (c : char) : bool := ((48 <=? c) && (c <=? 57))%N.

(** ** The fragment of [re] that [text_cleaner] uses *)

(** One position of a pattern. *)
Inductive atom : Type :=
| Lit (c : char)          (* a literal character *)
| Dot                     (* [.] without DOTALL: anything but a newline *)
| Digit                   (* [\d] *)
| OneOf (cs : list char). (* a class [[...]] *)

(** An atom, alone or under a quantifier. *)
Inductive item : Type :=
| One (a : atom)
| LazyStar (a : atom)     (* [a*?] *)
| GreedyPlus (a : atom).  (* [a+] *)

Definition regex := list item.

Definition lits (s : str) : regex := map (fun c => One (Lit c)) s.

Section Regex.
(** [\d] on a [str] pattern: the Unicode decimal digits. *)
Variable is_decimal : char -> bool.

Definition atom_matches (a : atom) (c : char) : bool :=
  match a with
  | Lit d => N.eqb c d
  | Dot => negb (N.eqb c ch_newline)
  | Digit => is_decimal c
  | OneOf cs => existsb (N.eqb c) cs
  end.

(** [a*?] followed by the continuation [k]: try the rest of the pattern
    first, take one more character only when that fails. *)
Fixpoint lazy_star (a : atom) (k : str -> option str) (s : str) : option str :=
  match k s with
  | Some rest => Some rest
  | None =>
      match s with
      | c :: s' => if atom_matches a c then lazy_star a k s' else None
      | [] => None
      end
  end.

(** [a*] (greedy) followed by [k]: take as many characters as possible,
    give them back one at a time while the rest of the pattern fails. *)
Fixpoint greedy_star (a : atom) (k : str -> option str) (s : str) : option str :=
  match s with
  | c :: s' =>
      if atom_matches a c then
        match greedy_star a k s' with
        | Some rest => Some rest
        | None => k s
        end
      else k s
  | [] => k s
  end.

(** The backtracking matcher anchored at the head of [s]: the text left
    after the first match in priority order, if any. *)
Fixpoint match_here (r : regex) : str -> option str :=
  match r with
  | [] => fun s => Some s
  | One a :: r' =>
      fun s =>
        match s with
        | c :: s' => if atom_matches a c then match_here r' s' else None
        | [] => None
        end
  | LazyStar a :: r' => lazy_star a (match_here r')
  | GreedyPlus a :: r' =>
      fun s =>
        match s with
        | c :: s' =>
            if atom_matches a c then greedy_star a (match_here r') s' else None
        | [] => None
        end
  end.

(** [re.sub(r, repl, s)] scanning from the left.  A match that consumed
    text is replaced and the scan resumes behind it; where nothing matches
    the character is copied.  An empty match is replaced and the scan moves
    one character on (Python 3.7; none of the cleaner's patterns matches the
    empty string).  [fuel] bounds the number of scan positions. *)
Fixpoint sub_from (fuel : nat) (r : regex) (repl s : str) : str :=
  match fuel with
  | O => s
  | S fuel' =>
      let copy :=
        match s with
        | c :: s' => c :: sub_from fuel' r repl s'
        | [] => []
        end in
      match match_here r s with
      | Some rest =>
          if Nat.ltb (length rest) (length s)
          then repl ++ sub_from fuel' r repl rest
          else repl ++ copy
      | None => copy
      end
  end.

Definition re_sub (r : regex) (repl s : str) : str :=
  sub_from (S (length s)) r repl s.

(** ** [str.split()] and [str.join] *)

(** The first token of [s] (which starts on a non-blank) and what follows. *)
Fixpoint take_word (s : str) : str * str :=
  match s with
  | c :: s' =>
      if is_space c then ([], s)
      else let '(w, rest) := take_word s' in (c :: w, rest)
  | [] => ([], [])
  end.

(** [s.split()]: maximal runs of non-blank characters. *)
Fixpoint split_from (fuel : nat) (s : str) : list str :=
  match fuel with
  | O => []
  | S fuel' =>
      match s with
      | [] => []
      | c :: s' =>
          if is_space c then split_from fuel' s'
          else let '(w, rest) := take_word s in w :: split_from fuel' rest
      end
  end.

Definition split (s : str) : list str := split_from (length s) s.

Definition non_blank (c : char) : bool := negb (is_space c).

(** A token of [split]: not empty, no whitespace in it. *)
Definition is_word (w : str) : Prop := w <> [] /\ forallb non_blank w = true.

(** [sep.join(words)] *)
Fixpoint join (sep : str) (words : list str) : str :=
  match words with
  | [] => []
  | [w] => w
  | w :: ws => w ++ sep ++ join sep ws
  end.

(** ** text_cleaner (notebook 4.4.4, cell 2) *)

(** r'--' *)
Definition re_double_dash : regex := Eval cbv in lits (py "--").
(** "[\[].*?[\]]" *)
Definition re_bracketed : regex :=
  [One (OneOf [ch_lbracket]); LazyStar Dot; One (OneOf [ch_rbracket])].
(** r'Chapter \d+' *)
Definition re_chapter : regex :=
  Eval cbv in lits (py "Chapter ") ++ [GreedyPlus Digit].

Definition text_cleaner (text : str) : str :=
  let text := re_sub re_double_dash (py " ") text in
  let text := re_sub re_bracketed (py "") text in
  let text := re_sub re_chapter (py "") text in
  let text := join (py " ") (split text) in
  text.

(** ** The cleaner as the specification words it *)

(** Does [s] start with [p]?  Then what follows. *)
Fixpoint strip_prefix (p s : str) : option str :=
  match p, s with
  | [], _ => Some s
  | a :: p', c :: s' => if N.eqb c a then strip_prefix p' s' else None
  | _ :: _, [] => None
  end.

Fixpoint drop_while (p : char -> bool) (s : str) : str :=
  match s with
  | c :: s' => if p c then drop_while p s' else s
  | [] => []
  end.

(** What follows the nearest closing bracket; [stop] tells which characters
    may not stand before it. *)
Fixpoint after_close (stop : char -> bool) (s : str) : option str :=
  match s with
  | [] => None
  | c :: s' =>
      if N.eqb c ch_rbracket then Some s'
      else if stop c then None
      else after_close stop s'
  end.

(** Going through the text from the left, every occurrence becomes [repl];
    [occ s] is the text behind the occurrence that starts [s], if one
    does. *)
Fixpoint replace_each_from (fuel : nat) (occ : str -> option str)
    (repl s : str) : str :=
  match fuel with
  | O => []
  | S fuel' =>
      match s with
      | [] => []
      | c :: s' =>
          match occ s with
          | Some rest => repl ++ replace_each_from fuel' occ repl rest
          | None => c :: replace_each_from fuel' occ repl s'
          end
      end
  end.

Definition replace_each (occ : str -> option str) (repl s : str) : str :=
  replace_each_from (length s) occ repl s.

(** (1) an occurrence of [--] *)
Definition double_dash_at : str -> option str := strip_prefix (py "--").

(** (2) a substring from an opening bracket to the nearest closing one: as
    the claim words it, and as the code has it (within one line). *)
Definition bracketed_upto (stop : char -> bool) (s : str) : option str :=
  match s with
  | c :: s' => if N.eqb c ch_lbracket then after_close stop s' else None
  | [] => None
  end.

Definition bracketed_at : str -> option str :=
  bracketed_upto (fun _ => false).

Definition bracketed_in_line_at : str -> option str :=
  bracketed_upto (fun c => N.eqb c ch_newline).

(** (3) [Chapter ] followed by one or more digits *)
Definition chapter_at (s : str) : option str :=
  match strip_prefix (py "Chapter ") s with
  | Some (d :: rest) =>
      if is_decimal d then Some (drop_while is_decimal rest) else None
  | _ => None
  end.

(** (4) split on whitespace, join with single spaces: the two library
    calls of the code. *)
Definition normalize_space (s : str) : str := join (py " ") (split s).

(** The four steps as claimed, and with step (2) as the code has it. *)
Definition text_cleaner_claimed (text : str) : str :=
  let text := replace_each double_dash_at (py " ") text in
  let text := replace_each bracketed_at (py "") text in
  let text := replace_each chapter_at (py "") text in
  normalize_space text.

Definition text_cleaner_steps (text : str) : str :=
  let text := replace_each double_dash_at (py " ") text in
  let text := replace_each bracketed_in_line_at (py "") text in
  let text := replace_each chapter_at (py "") text in
  normalize_space text.

(** ** Shape of a cleaned text *)

Definition no_leading_space (s : str) : bool :=
  match s with
  | c :: _ => negb (is_space c)
  | [] => true
  end.

Fixpoint no_trailing_space (s : str) : bool :=
  match s with
  | [] => true
  | c :: s' =>
      match s' with
      | [] => negb (is_space c)
      | _ :: _ => no_trailing_space s'
      end
  end.

Fixpoint no_space_pair (s : str) : bool :=
  match s with
  | [] => true
  | c :: s' =>
      match s' with
      | d :: _ => negb (is_space c && is_space d) && no_space_pair s'
      | [] => true
      end
  end.

Definition blanks_are_spaces (s : str) : bool :=
  forallb (fun c => implb (is_space c) (N.eqb c ch_space)) s.

(** Does [p] occur in [s]? *)
Fixpoint occurs (p s : str) : bool :=
  match strip_prefix p s with
  | Some _ => true
  | None =>
      match s with
      | _ :: s' => occurs p s'
      | [] => false
      end
  end.

(** One pass over a text that is empty or made of non-blank words with one
    space between them; [after_blank] says the previous position was a
    space or the start. *)
Fixpoint single_spaced (after_blank : bool) (s : str) : bool :=
  match s with
  | [] => negb after_blank
  | c :: s' =>
      if is_space c
      then negb after_blank && N.eqb c ch_space && single_spaced true s'
      else single_spaced false s'
  end.

End Regex.

(* ================================================================== *)
(** * numpy and pandas objects (notebook Newsgroups) *)

(** Objects live in a store and are passed by reference, as in Python. *)
Definition ref := nat.

(** [l[i] = x] on the store: nothing changes out of range (the helpers only
    write to references they hold). *)
Fixpoint update {A : Type} (i : nat) (x : A) (l : list A) : list A :=
  match l, i with
  | [], _ => []
  | _ :: l', O => x :: l'
  | y :: l', S i' => y :: update i' x l'
  end.

(** [np.repeat(range(k), n)] is [np_repeat (seq 0 k) n]. *)
Definition np_repeat (xs : list nat) (n : nat) : list nat :=
  flat_map (fun x => repeat x n) xs.

(** [l[idx]] for an array of positions (fancy indexing), keeping the
    positions that exist. *)
Definition take {A : Type} (l : list A) (idx : list nat) : list A :=
  flat_map (fun i => match nth_error l i with Some x => [x] | None => [] end) idx.

(** A value of the [topwords] Series: the NaN it is created with, a string,
    or a list-like of strings held as one value. *)
Inductive cell : Type :=
| NaN
| Str (s : str)
| Strs (l : list str).

(** A Series labelled by column numbers ([topwords]). *)
Record series : Type := { labels : list nat; cells : list cell }.

(** [pd.Series(index=index)]: all NaN. *)
Definition empty_series (index : list nat) : series :=
  {| labels := index; cells := repeat NaN (length index) |}.

(** [s.loc[label] = new] where several entries carry [label]: these entries
    take the strings of [new] one by one, in order, as in the output the
    notebook records; the counts must agree (ValueError otherwise). *)
Fixpoint assign_cells (label : nat) (labs : list nat) (cs : list cell)
    (new : list str) : option (list cell) :=
  match labs, cs with
  | [], [] => match new with [] => Some [] | _ :: _ => None end
  | l :: labs', v :: cs' =>
      if Nat.eqb l label then
        match new with
        | x :: new' =>
            option_map (cons (Str x)) (assign_cells label labs' cs' new')
        | [] => None
        end
      else option_map (cons v) (assign_cells label labs' cs' new)
  | _, _ => None
  end.

(** [s.loc[label] = new] where one entry carries [label]: the label stands
    for one position, and the value at that position becomes [new]. *)
Fixpoint assign_cell (label : nat) (labs : list nat) (cs : list cell)
    (new : cell) : list cell :=
  match labs, cs with
  | l :: labs', v :: cs' =>
      if Nat.eqb l label then new :: cs'
      else v :: assign_cell label labs' cs' new
  | _, _ => cs
  end.

(** [s.loc[label] = new] for a list-like [new].  pandas looks the label up in
    the index.  With no entry under it the Series is enlarged by one entry
    that holds the list-like ([top_words] asked for no word: the list-like
    is empty).  With one entry the label is a position and that one value
    becomes the list-like ([top_words] asked for one word: a list-like of
    one string, or of none on a frame without rows); no count is compared.
    With several entries the label is a range of positions, which takes the
    strings one by one; their number must be the number of positions
    (ValueError otherwise). *)
Definition loc_assign_value (s : series) (label : nat) (new : list str)
  : option series :=
  match count_occ Nat.eq_dec (labels s) label with
  | 0 => Some {| labels := labels s ++ [label]; cells := cells s ++ [Strs new] |}
  | 1 => Some {| labels := labels s;
                 cells := assign_cell label (labels s) (cells s) (Strs new) |}
  | _ => option_map (fun cs => {| labels := labels s; cells := cs |})
           (assign_cells label (labels s) (cells s) new)
  end.

(** One pass of the loop of [top_words] on the value of the Series; [g]
    gives the strings of each column. *)
Definition fill_step (g : nat -> list str) (acc : option series) (column : nat)
  : option series :=
  match acc with
  | Some s => loc_assign_value s column (g column)
  | None => None
  end.

(** [s.loc[label]]: the entries under [label], in order. *)
Definition loc_get (s : series) (label : nat) : list cell :=
  map snd (filter (fun p => Nat.eqb (fst p) label) (combine (labels s) (cells s))).

(** A DataFrame of strings with named columns ([topwords] of the notebook):
    the columns in order, each with the index of the frame. *)
Definition table : Type := list (str * series).

(** [t[name] = s] for a new column name.  The first column brings its index;
    a later one must carry the same index (pandas would otherwise realign,
    which the notebook never needs and the model leaves out). *)
Definition set_column (t : table) (name : str) (s : series) : option table :=
  match t with
  | [] => Some [(name, s)]
  | (_, s0) :: _ =>
      if list_eq_dec Nat.eq_dec (labels s) (labels s0)
      then Some (t ++ [(name, s)])
      else None
  end.

(** [str(n)] and ['{}'.format(n)] for a number [n >= 0]. *)
Definition str_nat (n : nat) : str := py (NilZero.string_of_uint (Nat.to_uint n)).

(** What a cell prints: a line of text, or rows of a table under the names of
    its columns. *)
Inductive shown : Type :=
| Line (s : str)
| Rows (columns : list (str * list cell)).

(** [t.loc[label]]: the rows under [label], column by column (a single row
    comes back as a Series and prints differently; its cells are the same).
    A label that is not in the index is a KeyError. *)
Definition table_loc (t : table) (label : nat)
  : option (list (str * list cell)) :=
  match t with
  | [] => None
  | (_, s0) :: _ =>
      if existsb (Nat.eqb label) (labels s0)
      then Some (map (fun col => (fst col, loc_get (snd col) label)) t)
      else None
  end.

Section Frames.
(** float64 and what the libraries compute on it. *)
Variable F : Type.
Variable fzero : F.
Variables fadd fmul : F -> F -> F.
Variable isnan : F -> bool.
(** [<=] on floats that are not NaN *)
Variable fle : F -> F -> bool.
(** [round(x, 2)] and [str(x)] *)
Variable round2 : F -> F.
Variable str_float : F -> str.
(** [numpy.argsort] (quicksort; ties in no promised order) *)
Variable argsort : list F -> list nat.

(** A two-dimensional array, dense or sparse, by rows. *)
Record ndarray : Type := { shape0 : nat; shape1 : nat; rows : list (list F) }.

Definition well_shaped (m : ndarray) : Prop :=
  length (rows m) = shape0 m /\ Forall (fun r => length r = shape1 m) (rows m).

Definition get (m : ndarray) (i j : nat) : F := nth j (nth i (rows m) []) fzero.

Definition column_values (m : ndarray) (j : nat) : list F :=
  map (fun r => nth j r fzero) (rows m).

(** [m.T] *)
Definition transpose (m : ndarray) : ndarray :=
  {| shape0 := shape1 m; shape1 := shape0 m;
     rows := map (column_values m) (seq 0 (shape1 m)) |}.

Definition dot (u v : list F) : F :=
  fold_left (fun acc p => fadd acc (fmul (fst p) (snd p))) (combine u v) fzero.

(** [a * b] for a sparse [a]: the matrix product; the inner dimensions
    must agree. *)
Definition matmul (a b : ndarray) : option ndarray :=
  if Nat.eqb (shape1 a) (shape0 b) then
    Some {| shape0 := shape0 a; shape1 := shape1 b;
            rows := map (fun r => map (fun j => dot r (column_values b j))
                                    (seq 0 (shape1 b))) (rows a) |}
  else None.

(** Entry [(i, j)] of the product of the transpose of [a] with [b], as a
    sum over the documents [k]. *)
Definition sum_products (a b : ndarray) (i j : nat) : F :=
  fold_left (fun acc k => fadd acc (fmul (get a k i) (get b k j)))
    (seq 0 (shape0 a)) fzero.

(** A DataFrame with a string index and columns [0 .. shape1 - 1]. *)
Record frame : Type := { index : list str; data : ndarray }.

(** [pd.DataFrame(values, index=idx)] *)
Definition new_frame (values : ndarray) (idx : list str) : option frame :=
  if Nat.eqb (length idx) (shape0 values)
  then Some {| index := idx; data := values |}
  else None.

(** A Series of floats labelled by words, as its (label, value) pairs. *)
Definition fseries : Type := list (str * F).

(** [f.iloc[:, c]] *)
Definition iloc_column (f : frame) (c : nat) : option fseries :=
  if Nat.ltb c (shape1 (data f))
  then Some (combine (index f) (column_values (data f) c))
  else None.

(** [s.sort_values(ascending=False)]: a new Series.  pandas argsorts the
    values that are not NaN, reverses that order and puts the NaN entries
    last. *)
Definition sort_values_desc (s : fseries) : fseries :=
  let good := filter (fun p => negb (isnan (snd p))) s in
  let bad := filter (fun p => isnan (snd p)) s in
  let argsorted := argsort (map snd good) in
  take good (rev argsorted) ++ bad.

(** [chosen.index + " " + round(chosen, 2).map(str)] *)
Definition label_and_loading (p : str * F) : str :=
  fst p ++ py " " ++ str_float (round2 (snd p)).

(** [a] may stand before [b] in decreasing order, NaN last. *)
Definition before (a b : str * F) : Prop :=
  isnan (snd b) = true
  \/ (isnan (snd a) = false /\ fle (snd b) (snd a) = true).

(** The index has one label per row of the values. *)
Definition frame_ok (f : frame) : Prop :=
  well_shaped (data f) /\ length (index f) = shape0 (data f).

(** ** The store *)

Inductive obj : Type :=
| VMatrix (m : ndarray)
| VList (l : list str)
| VFrame (f : frame)
| VSeries (s : series)
| VTable (t : table).

Definition store : Type := list obj.

(** A computation reads and writes the store and may raise. *)
Definition M (A : Type) : Type := store -> option (A * store).

Definition ret {A : Type} (a : A) : M A := fun st => Some (a, st).

Definition bind {A B : Type} (m : M A) (k : A -> M B) : M B :=
  fun st => match m st with
            | Some (a, st') => k a st'
            | None => None
            end.

Definition lift {A : Type} (o : option A) : M A :=
  fun st => match o with Some a => Some (a, st) | None => None end.

Definition alloc (o : obj) : M ref := fun st => Some (length st, st ++ [o]).

Definition load (r : ref) : M obj :=
  fun st => match nth_error st r with Some o => Some (o, st) | None => None end.

Definition store_at (r : ref) (o : obj) : M unit :=
  fun st => if Nat.ltb r (length st) then Some (tt, update r o st) else None.

Definition load_matrix (r : ref) : M ndarray :=
  bind (load r) (fun o => match o with VMatrix m => ret m | _ => lift None end).

Definition load_list (r : ref) : M (list str) :=
  bind (load r) (fun o => match o with VList l => ret l | _ => lift None end).

Definition load_frame (r : ref) : M frame :=
  bind (load r) (fun o => match o with VFrame f => ret f | _ => lift None end).

Definition load_series (r : ref) : M series :=
  bind (load r) (fun o => match o with VSeries s => ret s | _ => lift None end).

Definition load_table (r : ref) : M table :=
  bind (load r) (fun o => match o with VTable t => ret t | _ => lift None end).

Fixpoint for_each {A : Type} (xs : list A) (body : A -> M unit) : M unit :=
  match xs with
  | [] => ret tt
  | x :: xs' => bind (body x) (fun _ => for_each xs' body)
  end.

(** [topwords.loc[label] = new], in place. *)
Definition loc_assign (topwords : ref) (label : nat) (new : list str) : M unit :=
  bind (load_series topwords) (fun s =>
  bind (lift (loc_assign_value s label new)) (fun s' =>
  store_at topwords (VSeries s'))).

(** ** word_topic and top_words (notebook Newsgroups, cell 7) *)

Definition word_topic (tfidf solution wordlist : ref) : M ref :=
  bind (load_matrix tfidf) (fun a =>
  bind (load_matrix solution) (fun b =>
  bind (lift (matmul (transpose a) b)) (fun words_by_topic =>
  bind (load_list wordlist) (fun l =>
  bind (lift (new_frame words_by_topic l)) (fun components =>
  alloc (VFrame components)))))).

Definition top_words (components : ref) (n_top_words : nat) : M ref :=
  bind (load_frame components) (fun f =>
  let n_topics := seq 0 (shape1 (data f)) in
  let index := np_repeat n_topics n_top_words in
  bind (alloc (VSeries (empty_series index))) (fun topwords =>
  bind (load_frame components) (fun f =>
  bind (for_each (seq 0 (shape1 (data f))) (fun column =>
          bind (load_frame components) (fun f =>
          bind (lift (iloc_column f column)) (fun col =>
          let sortedwords := sort_values_desc col in
          let chosen := firstn n_top_words sortedwords in
          let chosenlist := map label_and_loading chosen in
          loc_assign topwords column chosenlist)))) (fun _ =>
  ret topwords)))).

(** ** What the two helpers compute, on values *)

Definition word_topic_value (a b : ndarray) (l : list str) : option frame :=
  match matmul (transpose a) b with
  | Some words_by_topic => new_frame words_by_topic l
  | None => None
  end.

(** The strings for one topic. *)
Definition chosen_words (f : frame) (n_top_words column : nat) : list str :=
  map label_and_loading
    (firstn n_top_words
       (sort_values_desc (combine (index f) (column_values (data f) column)))).

Definition top_words_value (f : frame) (n_top_words : nat) : option series :=
  fold_left
    (fun acc column =>
       match acc with
       | Some s => loc_assign_value s column (chosen_words f n_top_words column)
       | None => None
       end)
    (seq 0 (shape1 (data f)))
    (Some (empty_series (np_repeat (seq 0 (shape1 (data f))) n_top_words))).

(** ** The cells of notebook Newsgroups that compare the three models *)

(** scikit-learn: what [fit_transform] of each model returns for a given
    number of components; the other settings are the constants of the
    notebook. *)
Variables lsa_fit_transform lda_fit_transform nmf_fit_transform :
  nat -> ndarray -> ndarray.

(** What scikit-learn promises of [fit_transform]: one row per document, one
    column per component. *)
Definition fits_documents (fit : nat -> ndarray -> ndarray) : Prop :=
  forall k x, well_shaped x ->
    well_shaped (fit k x) /\ shape0 (fit k x) = shape0 x /\ shape1 (fit k x) = k.

(** Number of words to look at for each topic. *)
Definition n_top_words : nat := 10.
Definition ntopics : nat := 8.

(** [model.fit_transform(x)]: reads [x], returns a new array. *)
Definition call_fit_transform (fit : nat -> ndarray -> ndarray)
    (n_components : nat) (x : ref) : M ref :=
  bind (load_matrix x) (fun m => alloc (VMatrix (fit n_components m))).

(** [topwords[name] = value] *)
Definition set_item (topwords : ref) (name : str) (value : ref) : M unit :=
  bind (load_series value) (fun s =>
  bind (load_table topwords) (fun t =>
  bind (lift (set_column t name s)) (fun t' =>
  store_at topwords (VTable t')))).

(** Cell 8 (LSA) *)
Definition lsa_cell (news_train_tfidf vocabulary : ref) : M ref :=
  bind (call_fit_transform lsa_fit_transform ntopics news_train_tfidf)
    (fun news_train_lsa =>
  bind (word_topic news_train_tfidf news_train_lsa vocabulary)
    (fun components_lsa =>
  bind (alloc (VTable [])) (fun topwords =>
  bind (top_words components_lsa n_top_words) (fun s =>
  bind (set_item topwords (py "LSA") s) (fun _ =>
  ret topwords))))).

(** Cell 22 (LDA) *)
Definition lda_cell (news_train_tfidf vocabulary topwords : ref) : M unit :=
  bind (call_fit_transform lda_fit_transform ntopics news_train_tfidf)
    (fun news_train_lda =>
  bind (word_topic news_train_tfidf news_train_lda vocabulary)
    (fun components_lda =>
  bind (top_words components_lda n_top_words) (fun s =>
  set_item topwords (py "LDA") s))).

(** Cell 10 (NNMF) *)
Definition nmf_cell (news_train_tfidf vocabulary topwords : ref) : M unit :=
  bind (call_fit_transform nmf_fit_transform ntopics news_train_tfidf)
    (fun news_train_nmf =>
  bind (word_topic news_train_tfidf news_train_nmf vocabulary)
    (fun components_nmf =>
  bind (top_words components_nmf n_top_words) (fun s =>
  set_item topwords (py "NNMF") s))).

(** The three cells in the order of the notebook. *)
Definition compare_models (news_train_tfidf vocabulary : ref) : M ref :=
  bind (lsa_cell news_train_tfidf vocabulary) (fun topwords =>
  bind (lda_cell news_train_tfidf vocabulary topwords) (fun _ =>
  bind (nmf_cell news_train_tfidf vocabulary topwords) (fun _ =>
  ret topwords))).

(** The loadings of one model, computed on values: [word_topic] on the
    tf-idf matrix, the model's document-topic matrix and the vocabulary,
    then [top_words]. *)
Definition loadings_shown (fit : nat -> ndarray -> ndarray)
    (tfidf : ndarray) (vocabulary : list str) : option series :=
  match word_topic_value tfidf (fit ntopics tfidf) vocabulary with
  | Some components => top_words_value components n_top_words
  | None => None
  end.

(** ** Cell 14: the topics side by side *)

Fixpoint show_topics_from (topwords : ref) (topics : list nat)
  : M (list shown) :=
  match topics with
  | [] => ret []
  | topic :: rest =>
      let line := Line (py "Topic " ++ str_nat topic ++ py ":") in
      bind (load_table topwords) (fun t =>
      bind (lift (table_loc t topic)) (fun rows =>
      bind (show_topics_from topwords rest) (fun out =>
      ret (line :: Rows rows :: out))))
  end.

(** [for topic in range(ntopics): print(...); print(topwords.loc[topic])] *)
Definition show_topics (topwords : ref) : M (list shown) :=
  show_topics_from topwords (seq 0 ntopics).

End Frames.

(* ================================================================== *)
(** * Notebook Dimensionality_reduction: least squares against PLSR *)

(** [v.reshape((n, p))] on the values of a flat array: [n] rows of [p]. *)
Fixpoint chunks {A : Type} (n p : nat) (l : list A) : list (list A) :=
  match n with
  | O => []
  | S n' => firstn p l :: chunks n' p (skipn p l)
  end.

Module Dimensionality_reduction.
Section Cells.
Variable F : Type.
Variables fadd fmul : F -> F -> F.
(** A number written in the notebook, as a float. *)
Variable of_Z : Z -> F.
(** The state of numpy's generator, and
    [np.random.normal(loc, scale, size)]. *)
Variable rng : Type.
Variable random_normal : F -> F -> nat -> rng -> list F * rng.
(** scikit-learn: [LinearRegression] and [PLSRegression(n_components)],
    their [fit] and [score]. *)
Variables linear_model pls_model : Type.
Variable linear_fit : ndarray F -> list F -> linear_model.
Variable linear_score : linear_model -> ndarray F -> list F -> F.
Variable pls_fit : nat -> ndarray F -> list F -> pls_model.
Variable pls_score : pls_model -> ndarray F -> list F -> F.

Definition reshape (v : list F) (n p : nat) : option (ndarray F) :=
  if Nat.eqb (length v) (n * p)
  then Some {| shape0 := n; shape1 := p; rows := chunks n p v |}
  else None.

(** [u + v] on one-dimensional arrays of one length. *)
Definition vec_add (u v : list F) : option (list F) :=
  if Nat.eqb (length u) (length v)
  then Some (map (fun q => fadd (fst q) (snd q)) (combine u v))
  else None.

(** [c * v] and [v + c] for a number [c]. *)
Definition scalar_mul (c : F) (v : list F) : list F := map (fmul c) v.
Definition add_scalar (v : list F) (c : F) : list F :=
  map (fun x => fadd x c) v.

(** [print(label, value)] *)
Inductive output : Type := Print (label : str) (value : F).

(** Number of datapoints in outcome. *)
Definition n : nat := 1000.
(** Number of features. *)
Definition p : nat := 10.

(** Cells 2 and 4 without the plots: what is printed, and the generator
    state left behind. *)
Definition cells (g : rng) : option (list output * rng) :=
  let '(draws, g) := random_normal (of_Z 0) (of_Z 1) (n * p) g in
  match reshape draws n p with
  | None => None
  | Some X =>
  let '(noise, g) := random_normal (of_Z 0) (of_Z 1) (n * 1) g in
  match vec_add (column_values (of_Z 0) X 0)
                (scalar_mul (of_Z 2) (column_values (of_Z 0) X 1)) with
  | None => None
  | Some sum1 =>
  match vec_add sum1 noise with
  | None => None
  | Some sum2 =>
  let y := add_scalar sum2 (of_Z 5) in
  let regr := linear_fit X y in
  let line1 := Print (py "R-squared regression:") (linear_score regr X y) in
  let pls1 := pls_fit 3 X y in
  let line2 := Print (py "R-squared PLSR:") (pls_score pls1 X y) in
  Some ([line1; line2], g)
  end end end.

(** The outcome of one observation: its first feature, twice its second,
    the noise and 5. *)
Definition outcome (row : list F) (e : F) : F :=
  fadd (fadd (fadd (nth 0 row (of_Z 0)) (fmul (of_Z 2) (nth 1 row (of_Z 0)))) e)
       (of_Z 5).

(** [v * c] for a number [c]. *)
Definition mul_scalar (v : list F) (c : F) : list F :=
  map (fun x => fmul x c) v.

(** Cells 6 to 10, run behind [cells] on its [X] and [y]: what is printed,
    and the generator state left behind. *)
Definition more_cells (X : ndarray F) (y : list F) (g : rng)
  : option (list output * rng) :=
  (* cell 6 *)
  let pls2 := pls_fit 2 X y in
  let line1 := Print (py "R-squared PLSR:") (pls_score pls2 X y) in
  (* cell 7 *)
  let '(noise, g) := random_normal (of_Z 0) (of_Z 1) (n * 1) g in
  match vec_add (column_values (of_Z 0) X 0)
                (scalar_mul (of_Z 2) (column_values (of_Z 0) X 1)) with
  | None => None
  | Some sum1 =>
  match vec_add sum1 noise with
  | None => None
  | Some sum2 =>
  let y_new := add_scalar sum2 (of_Z 100) in
  (* cell 8 *)
  let '(noise, g) := random_normal (of_Z 0) (of_Z 1) (n * 1) g in
  match vec_add (column_values (of_Z 0) X 0)
                (scalar_mul (of_Z 2) (column_values (of_Z 0) X 1)) with
  | None => None
  | Some sum1 =>
  match vec_add sum1 (mul_scalar noise (of_Z 500)) with
  | None => None
  | Some y_new_one =>
  (* cell 9 *)
  let regr := linear_fit X y_new in
  let line2 := Print (py "R-squared regression:") (linear_score regr X y_new) in
  let pls3 := pls_fit 2 X y_new in
  let line3 := Print (py "R-squared PLSR:") (pls_score pls3 X y_new) in
  (* cell 10 *)
  let regr := linear_fit X y_new_one in
  let line4 :=
    Print (py "R-squared regression:") (linear_score regr X y_new_one) in
  let pls3 := pls_fit 2 X y_new_one in
  let line5 := Print (py "R-squared PLSR:") (pls_score pls3 X y_new_one) in
  Some ([line1; line2; line3; line4; line5], g)
  end end end end.

(** The two later outcomes of one observation: the noise shifted by 100, and
    the noise scaled by 500. *)
Definition outcome_new (row : list F) (e : F) : F :=
  fadd (fadd (fadd (nth 0 row (of_Z 0)) (fmul (of_Z 2) (nth 1 row (of_Z 0)))) e)
       (of_Z 100).

Definition outcome_new_one (row : list F) (e : F) : F :=
  fadd (fadd (nth 0 row (of_Z 0)) (fmul (of_Z 2) (nth 1 row (of_Z 0))))
       (fmul e (of_Z 500)).

End Cells.
End Dimensionality_reduction.

(* ================================================================== *)
(** * Notebook 4.4.4: from the parsed text to sentences *)

(** What the notebook reads of a spaCy token. *)
Record token : Type := { lemma_ : str; is_stop : bool; is_punct : bool }.

(** What cell 8 prints: a list of words, or a line of text. *)
Inductive printed : Type :=
| PrintWords (ws : list str)
| PrintLine (s : str).

Section Sentences.
(** [str.lower] *)
Variable lower : str -> str.

(** The loop of cell 8 over [austen_doc.sents]: one list of lower-case lemmas
    per sentence, stop words and punctuation left out. *)
Definition organize (sents : list (list token)) : list (list str) :=
  fold_left
    (fun sentences sentence =>
       let sentence :=
         map (fun token => lower (lemma_ token))
           (filter (fun token => negb (is_stop token) && negb (is_punct token))
              sentence) in
       sentences ++ [sentence])
    sents [].

(** Cell 8 with its two prints; [sentences[20]] raises IndexError on fewer
    than 21 sentences. *)
Definition sentences_cell (austen_clean : str) (sents : list (list token))
  : option (list printed) :=
  let sentences := organize sents in
  match nth_error sentences 20 with
  | None => None
  | Some sentence20 =>
      Some [PrintWords sentence20;
            PrintLine (py "We have " ++ str_nat (length sentences)
                       ++ py " sentences and " ++ str_nat (length austen_clean)
                       ++ py " tokens.")]
  end.

End Sentences.

(* ================================================================== *)
(** * Order of characters *)

(** [u] is [s] with some characters dropped. *)
Inductive subsequence : str -> str -> Prop :=
| sub_nil : subsequence [] []
| sub_drop (c : char) (u s : str) : subsequence u s -> subsequence u (c :: s)
| sub_keep (c : char) (u s : str) : subsequence u s -> subsequence (c :: u) (c :: s).

(* ================================================================== *)
(** * Sample data *)

(** Integers standing in for floats, with an insertion argsort, to run the
    helpers on small inputs. *)
Definition z_isnan (x : Z) : bool := false.
Definition z_round2 (x : Z) : Z := x.
Definition z_str (x : Z) : str := py (NilZero.string_of_int (Z.to_int x)).

Fixpoint z_insert (l : list Z) (i : nat) (sorted : list nat) : list nat :=
  match sorted with
  | [] => [i]
  | j :: rest =>
      if Z.leb (nth i l 0%Z) (nth j l 0%Z) then i :: sorted
      else j :: z_insert l i rest
  end.

Definition z_argsort (l : list Z) : list nat :=
  fold_right (z_insert l) [] (seq 0 (length l)).

(** Three words on two topics. *)
Definition sample_frame : frame Z :=
  {| index := [py "car"; py "god"; py "space"];
     data := {| shape0 := 3; shape1 := 2;
                rows := [[5; 1]; [7; 9]; [2; 4]]%Z |} |}.

(** Two documents over three terms, and their weights on two topics. *)
Definition sample_tfidf : ndarray Z :=
  {| shape0 := 2; shape1 := 3; rows := [[1; 0; 2]; [0; 3; 1]]%Z |}.
Definition sample_solution : ndarray Z :=
  {| shape0 := 2; shape1 := 2; rows := [[1; 2]; [3; 4]]%Z |}.

Definition sample_store : store Z :=
  [VFrame sample_frame; VMatrix sample_tfidf; VMatrix sample_solution;
   VList Z [py "car"; py "god"; py "space"]].

(** Two documents over ten terms, and a stand-in for a fitted model: topic
    [j] weighs a document by its [j]-th term plus [shift]. *)
Definition sample_news : ndarray Z :=
  {| shape0 := 2; shape1 := 10;
     rows := [[3; 1; 4; 1; 5; 9; 2; 6; 5; 3]; [2; 7; 1; 8; 2; 8; 1; 8; 2; 8]]%Z |}.

Definition sample_vocabulary : list str :=
  map (fun i => [(97 + N.of_nat i)%N]) (seq 0 10).

Definition sample_fit (shift : Z) (k : nat) (x : ndarray Z) : ndarray Z :=
  {| shape0 := shape0 x; shape1 := k;
     rows := map (fun r => map (fun j => (nth j r 0 + shift)%Z) (seq 0 k))
               (rows x) |}.

Definition sample_news_store : store Z :=
  [VMatrix sample_news; VList Z sample_vocabulary].

(** A generator that counts, for the regression notebook. *)
Definition z_normal (loc scale : Z) (k : nat) (g : nat) : list Z * nat :=
  (map (fun i => (Z.of_nat (Nat.modulo (g + i) 7) - 3)%Z) (seq 0 k), g + k).

(** A table of one column over eight topics, one word each, and one over
    two topics only. *)
Definition sample_topwords : table :=
  [(py "LSA", {| labels := np_repeat (seq 0 8) 1;
                 cells := map (fun i => Str [(97 + N.of_nat i)%N]) (seq 0 8) |})].

Definition sample_two_topics : table :=
  [(py "LSA", {| labels := np_repeat (seq 0 2) 2;
                 cells := map Str [py "god 7"; py "car 5";
                                   py "god 9"; py "space 4"] |})].

Definition sample_table_store : store Z :=
  [VTable Z sample_topwords; VTable Z sample_two_topics].

(** A sentence of three tokens: a word, a stop word and a full stop. *)
Definition sample_sentence : list token :=
  [{| lemma_ := py "Daughter"; is_stop := false; is_punct := false |};
   {| lemma_ := py "the"; is_stop := true; is_punct := false |};
   {| lemma_ := py "."; is_stop := false; is_punct := true |}].

(** [str.lower] on ASCII letters. *)
Definition ascii_lower (s : str) : str :=
  map (fun c => if ((65 <=? c) && (c <=? 90))%N then (c + 32)%N else c) s.

(** The features of the regression notebook under the counting generator. *)
Definition sample_X : ndarray Z :=
  {| shape0 := 1000; shape1 := 10;
     rows := chunks 1000 10 (fst (z_normal 0 1 (1000 * 10) 0)) |}.

(* ================================================================== *)
(** * Properties of the text cleaner *)

Section RegexFacts.
Variable is_decimal : char -> bool.

Lemma strip_prefix_shorter p s rest :
  strip_prefix p s = Some rest -> length rest + length p = length s.
Proof.
  revert s; induction p as [|a p IH]; intros [|c s] H; simpl in *;
    try discriminate; try (injection H as <-; simpl; lia).
  destruct (N.eqb c a); [apply IH in H; lia | discriminate].
Qed.

Lemma match_here_lits p r s :
  match_here is_decimal (lits p ++ r) s =
  match strip_prefix p s with
  | Some rest => match_here is_decimal r rest
  | None => None
  end.
Proof.
  revert s; induction p as [|a p IH]; intros s; simpl.
  - reflexivity.
  - destruct s as [|c s]; [reflexivity|].
    destruct (N.eqb c a); [apply IH | reflexivity].
Qed.

Lemma match_double_dash s :
  match_here is_decimal re_double_dash s = double_dash_at s.
Proof.
  change re_double_dash with (lits (py "--") ++ []).
  rewrite match_here_lits. unfold double_dash_at.
  destruct (strip_prefix (py "--") s); reflexivity.
Qed.

(** The lazy star walks to the nearest closing bracket and gives up on a
    newline. *)
Lemma lazy_dot_close s :
  lazy_star is_decimal Dot (match_here is_decimal [One (OneOf [ch_rbracket])]) s
  = after_close (fun c => N.eqb c ch_newline) s.
Proof.
  induction s as [|c s IH]; [reflexivity|].
  cbn [lazy_star after_close match_here atom_matches existsb].
  destruct (N.eqb c ch_rbracket) eqn:Hc; cbn [orb].
  - reflexivity.
  - destruct (N.eqb c ch_newline); cbn [negb]; [reflexivity | exact IH].
Qed.

Lemma match_bracketed s :
  match_here is_decimal re_bracketed s = bracketed_in_line_at s.
Proof.
  destruct s as [|c s]; [reflexivity|].
  unfold re_bracketed, bracketed_in_line_at, bracketed_upto.
  cbn [match_here atom_matches existsb].
  destruct (N.eqb c ch_lbracket); cbn [orb]; [apply lazy_dot_close | reflexivity].
Qed.

(** The greedy plus with nothing behind it takes the whole run of digits. *)
Lemma greedy_digits s :
  greedy_star is_decimal Digit (match_here is_decimal []) s
  = Some (drop_while is_decimal s).
Proof.
  induction s as [|c s IH]; [reflexivity|].
  cbn [greedy_star drop_while atom_matches].
  destruct (is_decimal c); [rewrite IH|]; reflexivity.
Qed.

Lemma match_chapter s :
  match_here is_decimal re_chapter s = chapter_at is_decimal s.
Proof.
  change re_chapter with (lits (py "Chapter ") ++ [GreedyPlus Digit]).
  rewrite match_here_lits. unfold chapter_at.
  destruct (strip_prefix (py "Chapter ") s) as [[|d rest]|]; try reflexivity.
  cbn [match_here atom_matches].
  destruct (is_decimal d); [apply greedy_digits | reflexivity].
Qed.

Lemma drop_while_length p s : length (drop_while p s) <= length s.
Proof.
  induction s as [|c s IH]; simpl; [lia|].
  destruct (p c); simpl; lia.
Qed.

Lemma after_close_shorter stop s rest :
  after_close stop s = Some rest -> length rest < length s.
Proof.
  induction s as [|c s IH]; simpl; [discriminate|].
  destruct (N.eqb c ch_rbracket).
  - intros [= <-]; lia.
  - destruct (stop c); [discriminate|]. intros H; apply IH in H; lia.
Qed.

Lemma double_dash_shorter s rest :
  double_dash_at s = Some rest -> length rest < length s.
Proof. intros H; apply strip_prefix_shorter in H; simpl in H; lia. Qed.

Lemma bracketed_shorter stop s rest :
  bracketed_upto stop s = Some rest -> length rest < length s.
Proof.
  destruct s as [|c s]; simpl; [discriminate|].
  destruct (N.eqb c ch_lbracket); [|discriminate].
  intros H; apply after_close_shorter in H; lia.
Qed.

Lemma chapter_shorter s rest :
  chapter_at is_decimal s = Some rest -> length rest < length s.
Proof.
  unfold chapter_at.
  destruct (strip_prefix (py "Chapter ") s) as [[|d t]|] eqn:E; try discriminate.
  destruct (is_decimal d); [|discriminate]. intros [= <-].
  apply strip_prefix_shorter in E. simpl in E.
  pose proof (drop_while_length is_decimal t). lia.
Qed.

(** A pattern whose matches are the occurrences [occ], none of them empty:
    [re.sub] replaces each occurrence, with any fuel that covers the text. *)
Lemma sub_from_replace_each r occ repl :
  (forall s, match_here is_decimal r s = occ s) ->
  (forall s rest, occ s = Some rest -> length rest < length s) ->
  forall n s, length s <= n ->
    sub_from is_decimal (S n) r repl s = replace_each_from n occ repl s.
Proof.
  intros Hm Hocc. induction n as [|n IH]; intros s Hs.
  - destruct s; [|simpl in Hs; lia].
    cbn [sub_from replace_each_from]. rewrite Hm.
    destruct (occ []) as [rest|] eqn:E; [|reflexivity].
    apply Hocc in E; simpl in E; lia.
  - destruct s as [|c s].
    + cbn [sub_from replace_each_from]. rewrite Hm.
      destruct (occ []) as [rest|] eqn:E; [|reflexivity].
      apply Hocc in E; simpl in E; lia.
    + change (sub_from is_decimal (S (S n)) r repl (c :: s)) with
        (match match_here is_decimal r (c :: s) with
         | Some rest =>
             if Nat.ltb (length rest) (length (c :: s))
             then repl ++ sub_from is_decimal (S n) r repl rest
             else repl ++ c :: sub_from is_decimal (S n) r repl s
         | None => c :: sub_from is_decimal (S n) r repl s
         end).
      cbn [replace_each_from]. rewrite Hm.
      destruct (occ (c :: s)) as [rest|] eqn:E.
      * pose proof (Hocc _ _ E) as Hlt.
        destruct (Nat.ltb_spec (length rest) (length (c :: s))); [|lia].
        rewrite IH; [reflexivity | simpl in *; lia].
      * rewrite IH; [reflexivity | simpl in *; lia].
Qed.

Lemma re_sub_replace_each r occ repl s :
  (forall s, match_here is_decimal r s = occ s) ->
  (forall s rest, occ s = Some rest -> length rest < length s) ->
  re_sub is_decimal r repl s = replace_each occ repl s.
Proof.
  intros Hm Hocc. unfold re_sub, replace_each.
  apply sub_from_replace_each; auto.
Qed.

Lemma text_cleaner_is_steps text :
  text_cleaner is_decimal text = text_cleaner_steps is_decimal text.
Proof.
  unfold text_cleaner, text_cleaner_steps, normalize_space.
  rewrite (@re_sub_replace_each re_double_dash double_dash_at (py " ") text
             match_double_dash double_dash_shorter).
  rewrite (@re_sub_replace_each re_bracketed bracketed_in_line_at (py "") _
             match_bracketed (@bracketed_shorter _)).
  rewrite (@re_sub_replace_each re_chapter (chapter_at is_decimal) (py "") _
             match_chapter chapter_shorter).
  reflexivity.
Qed.

(** The first substitution alone leaves no [--] behind. *)
Lemma replace_double_dash_clean n s :
  length s <= n ->
  occurs (py "--") (replace_each_from n double_dash_at (py " ") s) = false.
Proof.
  revert s; induction n as [|n IH]; intros s Hs; [reflexivity|].
  destruct s as [|c s]; [reflexivity|].
  cbn [replace_each_from].
  destruct (double_dash_at (c :: s)) as [rest|] eqn:E.
  - apply double_dash_shorter in E.
    change (py " " ++ replace_each_from n double_dash_at (py " ") rest)
      with (ch_space :: replace_each_from n double_dash_at (py " ") rest).
    cbn [occurs strip_prefix py map list_ascii_of_string].
    change (N.eqb ch_space (N_of_ascii "-")) with false. cbv iota.
    apply IH. simpl in *; lia.
  - simpl in Hs.
    assert (IHs := IH s ltac:(lia)).
    cbn [occurs]. 
    destruct (strip_prefix (py "--")
                (c :: replace_each_from n double_dash_at (py " ") s)) eqn:P;
      [|exact IHs].
    exfalso. revert E P. unfold double_dash_at.
    cbn [strip_prefix py map list_ascii_of_string].
    destruct (N.eqb c (N_of_ascii "-")); [|discriminate].
    destruct n as [|n]; [discriminate|].
    destruct s as [|d s]; [discriminate|].
    destruct (N.eqb d (N_of_ascii "-")) eqn:D; [discriminate|].
    intros _. cbn [replace_each_from]. rewrite !D. discriminate.
Qed.

Lemma first_substitution_clean s :
  occurs (py "--") (re_sub is_decimal re_double_dash (py " ") s) = false.
Proof.
  rewrite (@re_sub_replace_each re_double_dash double_dash_at (py " ") s
             match_double_dash double_dash_shorter).
  apply replace_double_dash_clean. lia.
Qed.

End RegexFacts.

(** ** Splitting and joining *)


Lemma take_word_spec s :
  s = fst (take_word s) ++ snd (take_word s)
  /\ forallb non_blank (fst (take_word s)) = true.
Proof.
  induction s as [|c s [IH1 IH2]]; simpl; [split; reflexivity|].
  destruct (is_space c) eqn:Hc; simpl; [split; reflexivity|].
  destruct (take_word s) as [w rest]; simpl in *.
  unfold non_blank at 1. rewrite Hc. simpl. split; [congruence | exact IH2].
Qed.

Lemma split_from_words fuel s : Forall is_word (split_from fuel s).
Proof.
  revert s; induction fuel as [|fuel IH]; intros s; simpl; [constructor|].
  destruct s as [|c s]; [constructor|].
  destruct (is_space c) eqn:Hc; [apply IH|].
  pose proof (take_word_spec (c :: s)) as [_ Hw].
  simpl in *. rewrite Hc in *.
  destruct (take_word s) as [w rest]; simpl in *.
  constructor; [|apply IH].
  split; [discriminate | exact Hw].
Qed.

Lemma filter_words w : forallb non_blank w = true -> filter non_blank w = w.
Proof.
  induction w as [|c w IH]; simpl; [reflexivity|].
  intros H; apply andb_prop in H as [Hc Hw]. rewrite Hc, IH; auto.
Qed.

(** With fuel for the whole text, the tokens are its non-blank characters. *)
Lemma split_from_concat fuel s :
  length s <= fuel -> concat (split_from fuel s) = filter non_blank s.
Proof.
  revert s; induction fuel as [|fuel IH]; intros s Hs.
  - destruct s; [reflexivity | simpl in Hs; lia].
  - destruct s as [|c s]; [reflexivity|].
    cbn [split_from]. simpl in Hs.
    destruct (is_space c) eqn:Hc.
    + cbn [filter]. unfold non_blank at 1. rewrite Hc. cbn [negb].
      apply IH; lia.
    + pose proof (take_word_spec s) as [Hsplit Hw].
      cbn [take_word]. rewrite Hc.
      destruct (take_word s) as [w rest]; simpl in Hsplit, Hw.
      cbn [concat filter]. unfold non_blank at 1. rewrite Hc. cbn [negb app].
      assert (Hlen : length s = length w + length rest)
        by (rewrite Hsplit at 1; apply length_app).
      f_equal. rewrite IH by lia.
      rewrite Hsplit at 1. rewrite filter_app, (filter_words _ Hw). reflexivity.
Qed.

Lemma join_concat ws :
  Forall is_word ws -> filter non_blank (join (py " ") ws) = concat ws.
Proof.
  induction 1 as [|w ws [_ Hw] Hws IH]; [reflexivity|].
  destruct ws as [|w2 ws].
  - simpl. rewrite app_nil_r. apply filter_words, Hw.
  - change (join (py " ") (w :: w2 :: ws))
      with (w ++ py " " ++ join (py " ") (w2 :: ws)).
    rewrite !filter_app, IH, (filter_words _ Hw). reflexivity.
Qed.

Lemma single_spaced_word b w r :
  is_word w -> single_spaced b (w ++ r) = single_spaced false r.
Proof.
  intros [Hne Hw]. revert b; induction w as [|c w IH]; intros b; [congruence|].
  simpl in Hw. apply andb_prop in Hw as [Hc Hw].
  unfold non_blank in Hc. apply negb_true_iff in Hc.
  simpl. rewrite Hc.
  destruct w as [|d w]; [reflexivity|].
  apply IH; [discriminate | exact Hw].
Qed.

Lemma join_single_spaced ws :
  Forall is_word ws -> ws <> [] ->
  single_spaced true (join (py " ") ws) = true.
Proof.
  induction 1 as [|w ws Hw Hws IH]; intros Hne; [congruence|].
  destruct ws as [|w2 ws].
  - simpl. rewrite <- (app_nil_r w). rewrite single_spaced_word; auto.
  - change (join (py " ") (w :: w2 :: ws))
      with (w ++ py " " ++ join (py " ") (w2 :: ws)).
    rewrite single_spaced_word by exact Hw.
    simpl. apply IH. discriminate.
Qed.

Lemma single_spaced_leading s :
  single_spaced true s = true -> no_leading_space s = true.
Proof.
  destruct s as [|c s]; simpl; [reflexivity|].
  destruct (is_space c); [discriminate | reflexivity].
Qed.

Lemma single_spaced_trailing b s :
  single_spaced b s = true -> no_trailing_space s = true.
Proof.
  revert b; induction s as [|c s IH]; intros b; [reflexivity|].
  cbn [single_spaced no_trailing_space].
  destruct s as [|d s].
  - destruct (is_space c); [|reflexivity].
    simpl. rewrite andb_false_r. discriminate.
  - destruct (is_space c); [|apply IH].
    intros H. apply andb_prop in H as [_ H]. exact (IH _ H).
Qed.

Lemma single_spaced_pairs b s :
  single_spaced b s = true -> no_space_pair s = true.
Proof.
  revert b; induction s as [|c s IH]; intros b; [reflexivity|].
  cbn [single_spaced no_space_pair].
  destruct s as [|d s]; [reflexivity|].
  destruct (is_space c).
  - intros H. apply andb_prop in H as [_ H].
    rewrite (IH _ H), andb_true_r.
    cbn [single_spaced] in H. destruct (is_space d); [discriminate | reflexivity].
  - intros H. rewrite (IH _ H). reflexivity.
Qed.

Lemma single_spaced_blanks b s :
  single_spaced b s = true -> blanks_are_spaces s = true.
Proof.
  unfold blanks_are_spaces.
  revert b; induction s as [|c s IH]; intros b; [reflexivity|].
  cbn [single_spaced forallb].
  destruct (is_space c); cbn [implb].
  - intros H. apply andb_prop in H as [H1 H2]. apply andb_prop in H1 as [_ H1].
    rewrite H1, (IH _ H2). reflexivity.
  - apply IH.
Qed.

(** What [' '.join(text.split())] returns, for any text. *)
Lemma normalize_space_shape s :
  no_leading_space (normalize_space s) = true
  /\ no_trailing_space (normalize_space s) = true
  /\ no_space_pair (normalize_space s) = true
  /\ blanks_are_spaces (normalize_space s) = true.
Proof.
  unfold normalize_space, split.
  pose proof (split_from_words (length s) s) as Hw.
  destruct (split_from (length s) s) as [|w ws] eqn:E.
  - repeat split; reflexivity.
  - assert (H : single_spaced true (join (py " ") (w :: ws)) = true)
      by (apply join_single_spaced; [exact Hw | discriminate]).
    repeat split;
      eauto using single_spaced_leading, single_spaced_trailing,
        single_spaced_pairs, single_spaced_blanks.
Qed.

Lemma normalize_space_keeps s :
  filter non_blank (normalize_space s) = filter non_blank s.
Proof.
  unfold normalize_space, split.
  rewrite join_concat by apply split_from_words.
  apply split_from_concat. lia.
Qed.

(** ** The claims about the cleaner *)

(** C2, as the code has it.  [text_cleaner] replaces every [--] by a space,
    then deletes every stretch from an opening bracket to the nearest closing
    bracket on the same line, then deletes every [Chapter ] followed by its
    digits, then splits on whitespace and joins with single spaces. *)
Theorem text_cleaner_four_steps (is_decimal : char -> bool) (text : str) :
  text_cleaner is_decimal text = text_cleaner_steps is_decimal text.
Proof. apply text_cleaner_is_steps. Qed.

(** A bracket closed on a later line stays: there the cleaner differs from
    the four steps as C2 words them. *)
Lemma text_cleaner_bracket_across_lines :
  text_cleaner ascii_decimal (py "[a" ++ [ch_newline] ++ py "b]") = py "[a b]"
  /\ text_cleaner_claimed ascii_decimal (py "[a" ++ [ch_newline] ++ py "b]") = py ""
  /\ text_cleaner ascii_decimal (py "[a" ++ [ch_newline] ++ py "b]")
     <> text_cleaner_claimed ascii_decimal (py "[a" ++ [ch_newline] ++ py "b]").
Proof. vm_compute. repeat split; discriminate. Qed.

(** C5 fails: the first substitution leaves no [--]
    ([first_substitution_clean]), but two dashes that a deleted heading kept
    apart come out as [--]. *)
Theorem text_cleaner_joins_dashes :
  text_cleaner ascii_decimal (py "-[x]-") = py "--"
  /\ occurs (py "--") (text_cleaner ascii_decimal (py "-[x]-")) = true
  /\ text_cleaner ascii_decimal (py "-Chapter 1-") = py "--".
Proof. vm_compute. repeat split. Qed.

(** ** What else the cleaner keeps *)

Lemma subsequence_refl s : subsequence s s.
Proof. induction s; [apply sub_nil | now apply sub_keep]. Qed.

Lemma subsequence_trans u v w :
  subsequence u v -> subsequence v w -> subsequence u w.
Proof.
  intros Huv Hvw. revert u Huv.
  induction Hvw as [|c v w _ IH|c v w _ IH]; intros u Huv.
  - exact Huv.
  - apply sub_drop. now apply IH.
  - inversion Huv; subst; [apply sub_drop | apply sub_keep]; now apply IH.
Qed.

Lemma subsequence_skip m s u : subsequence u s -> subsequence u (m ++ s).
Proof. intros H. induction m; simpl; [exact H | now apply sub_drop]. Qed.

Lemma subsequence_filter (p : char -> bool) s : subsequence (filter p s) s.
Proof.
  induction s as [|c s IH]; simpl; [apply sub_nil|].
  destruct (p c); [apply sub_keep | apply sub_drop]; exact IH.
Qed.

Lemma subsequence_filter_mono (p : char -> bool) u s :
  subsequence u s -> subsequence (filter p u) (filter p s).
Proof.
  induction 1 as [|c u s _ IH|c u s _ IH]; simpl.
  - apply sub_nil.
  - destruct (p c); [apply sub_drop|]; exact IH.
  - destruct (p c); [apply sub_keep|]; exact IH.
Qed.

Section CleanerFacts.
Variable is_decimal : char -> bool.

(** A match is a stretch at the head of the text: what is left is a tail
    of it. *)
Lemma lazy_star_tail a (k : str -> option str) :
  (forall s rest, k s = Some rest -> exists m, s = m ++ rest) ->
  forall s rest, lazy_star is_decimal a k s = Some rest -> exists m, s = m ++ rest.
Proof.
  intros Hk. induction s as [|c s IH]; intros rest; cbn [lazy_star].
  - destruct (k []) eqn:E; [|discriminate]. intros [= <-]. eauto.
  - destruct (k (c :: s)) eqn:E.
    + intros [= <-]. eauto.
    + destruct (atom_matches is_decimal a c); [|discriminate].
      intros H. destruct (IH _ H) as [m ->]. now exists (c :: m).
Qed.

Lemma greedy_star_tail a (k : str -> option str) :
  (forall s rest, k s = Some rest -> exists m, s = m ++ rest) ->
  forall s rest, greedy_star is_decimal a k s = Some rest -> exists m, s = m ++ rest.
Proof.
  intros Hk. induction s as [|c s IH]; intros rest; cbn [greedy_star].
  - apply Hk.
  - destruct (atom_matches is_decimal a c); [|apply Hk].
    destruct (greedy_star is_decimal a k s) eqn:E; [|apply Hk].
    intros [= <-]. destruct (IH _ eq_refl) as [m ->]. now exists (c :: m).
Qed.

Lemma match_here_tail r :
  forall s rest, match_here is_decimal r s = Some rest -> exists m, s = m ++ rest.
Proof.
  induction r as [|[a|a|a] r IH]; cbn [match_here].
  - intros s rest [= <-]. now exists [].
  - intros [|c s] rest; [discriminate|].
    destruct (atom_matches is_decimal a c); [|discriminate].
    intros H. destruct (IH _ _ H) as [m ->]. now exists (c :: m).
  - now apply lazy_star_tail.
  - intros [|c s] rest; [discriminate|].
    destruct (atom_matches is_decimal a c); [|discriminate].
    intros H. destruct (greedy_star_tail a _ IH _ H) as [m ->]. now exists (c :: m).
Qed.

(** A substitution by blanks only drops non-blank characters, whatever the
    pattern. *)
Lemma sub_from_subsequence fuel r repl s :
  filter non_blank repl = [] ->
  subsequence (filter non_blank (sub_from is_decimal fuel r repl s))
              (filter non_blank s).
Proof.
  intros Hrepl. revert s; induction fuel as [|fuel IH]; intros s.
  - apply subsequence_refl.
  - assert (Hcopy : subsequence
              (filter non_blank
                 match s with
                 | c :: s' => c :: sub_from is_decimal fuel r repl s'
                 | [] => []
                 end) (filter non_blank s)).
    { destruct s as [|c s]; [apply sub_nil|]. cbn [filter].
      destruct (non_blank c); [apply sub_keep|]; apply IH. }
    cbn [sub_from]. destruct (match_here is_decimal r s) as [rest|] eqn:E;
      [|exact Hcopy].
    destruct (Nat.ltb (length rest) (length s)).
    + rewrite filter_app, Hrepl. cbn [app].
      destruct (match_here_tail _ _ E) as [m ->].
      rewrite filter_app. apply subsequence_skip, IH.
    + rewrite filter_app, Hrepl. exact Hcopy.
Qed.

(** X2.  The non-blank characters of a cleaned text are characters of the
    text, in their order: the cleaner drops characters, it never adds or
    moves one. *)
Theorem text_cleaner_drops_only (text : str) :
  subsequence (filter non_blank (text_cleaner is_decimal text)) text.
Proof.
  unfold text_cleaner. fold (normalize_space
    (re_sub is_decimal re_chapter (py "")
       (re_sub is_decimal re_bracketed (py "")
          (re_sub is_decimal re_double_dash (py " ") text)))).
  rewrite normalize_space_keeps. unfold re_sub.
  eapply subsequence_trans; [apply sub_from_subsequence; reflexivity|].
  eapply subsequence_trans; [apply sub_from_subsequence; reflexivity|].
  eapply subsequence_trans; [apply sub_from_subsequence; reflexivity|].
  apply subsequence_filter.
Qed.

(** ** Lengths *)

Lemma replace_each_from_length (occ : str -> option str) (repl : str) :
  (forall s rest, occ s = Some rest -> length rest + length repl <= length s) ->
  forall n s, length (replace_each_from n occ repl s) <= length s.
Proof.
  intros Hocc. induction n as [|n IH]; intros s; simpl; [lia|].
  destruct s as [|c s]; [simpl; lia|].
  destruct (occ (c :: s)) as [rest|] eqn:E.
  - apply Hocc in E. rewrite length_app. specialize (IH rest). lia.
  - simpl. specialize (IH s). lia.
Qed.

Lemma take_word_rest s :
  snd (take_word s) = []
  \/ exists c r, snd (take_word s) = c :: r /\ is_space c = true.
Proof.
  induction s as [|c s IH]; simpl; [now left|].
  destruct (is_space c) eqn:Hc; simpl; [right; eauto|].
  destruct (take_word s) as [w rest]; exact IH.
Qed.

Lemma split_from_nil fuel : split_from fuel [] = [].
Proof. now destruct fuel. Qed.

Lemma join_cons w ws :
  length (join (py " ") (w :: ws)) <= length w + S (length (join (py " ") ws)).
Proof.
  destruct ws as [|w2 ws]; [simpl; lia|].
  change (join (py " ") (w :: w2 :: ws))
    with (w ++ py " " ++ join (py " ") (w2 :: ws)).
  rewrite !length_app. simpl. lia.
Qed.

Lemma normalize_from_length fuel :
  forall s, length (join (py " ") (split_from fuel s)) <= length s.
Proof.
  induction fuel as [fuel IH] using lt_wf_ind. intros s.
  destruct fuel as [|fuel]; [simpl; lia|].
  destruct s as [|c s]; [simpl; lia|].
  cbn [split_from]. destruct (is_space c) eqn:Hc.
  - specialize (IH fuel ltac:(lia) s). simpl. lia.
  - pose proof (take_word_spec (c :: s)) as [Hsplit _].
    pose proof (take_word_rest (c :: s)) as Hrest.
    destruct (take_word (c :: s)) as [w rest]. cbn [fst snd] in *.
    assert (Hlen : length (c :: s) = length w + length rest)
      by (rewrite Hsplit at 1; apply length_app).
    destruct Hrest as [->|(d & r & -> & Hd)].
    + rewrite split_from_nil. simpl in *. lia.
    + destruct fuel as [|fuel]; [simpl in *; lia|].
      cbn [split_from]. rewrite Hd.
      pose proof (join_cons w (split_from fuel r)).
      specialize (IH fuel ltac:(lia) r). simpl in *. lia.
Qed.

Lemma normalize_space_length s : length (normalize_space s) <= length s.
Proof. apply normalize_from_length. Qed.

(** X1.  A cleaned text is never longer than the text. *)
Theorem text_cleaner_never_longer (text : str) :
  length (text_cleaner is_decimal text) <= length text.
Proof.
  rewrite text_cleaner_is_steps. unfold text_cleaner_steps, replace_each.
  eapply Nat.le_trans; [apply normalize_space_length|].
  eapply Nat.le_trans;
    [apply replace_each_from_length; intros s r H;
     apply chapter_shorter in H; simpl; lia|].
  eapply Nat.le_trans;
    [apply replace_each_from_length; intros s r H;
     apply bracketed_shorter in H; simpl; lia|].
  apply replace_each_from_length. intros s r H.
  apply strip_prefix_shorter in H. simpl in *. lia.
Qed.

(** ** Text the substitutions pass over *)

Lemma replace_each_from_free (occ : str -> option str) (repl : str)
    (free : str -> bool) :
  (forall c s, free (c :: s) = true -> occ (c :: s) = None /\ free s = true) ->
  forall n s, length s <= n -> free s = true ->
              replace_each_from n occ repl s = s.
Proof.
  intros Hfree. induction n as [|n IH]; intros s Hn Hs.
  - destruct s; [reflexivity | simpl in Hn; lia].
  - destruct s as [|c s]; [reflexivity|].
    destruct (Hfree _ _ Hs) as [Hocc Hs']. cbn [replace_each_from].
    rewrite Hocc, IH; [reflexivity | simpl in Hn; lia | exact Hs'].
Qed.

Lemma occurs_cons p c s :
  occurs p (c :: s) = false ->
  strip_prefix p (c :: s) = None /\ occurs p s = false.
Proof.
  cbn [occurs]. destruct (strip_prefix p (c :: s)); [discriminate | auto].
Qed.

Lemma text_cleaner_plain (text : str) :
  occurs (py "--") text = false ->
  existsb (N.eqb ch_lbracket) text = false ->
  occurs (py "Chapter ") text = false ->
  text_cleaner is_decimal text = normalize_space text.
Proof.
  intros Hdd Hbr Hch.
  rewrite text_cleaner_is_steps. unfold text_cleaner_steps, replace_each.
  rewrite (@replace_each_from_free double_dash_at (py " ")
             (fun s => negb (occurs (py "--") s)));
    [| | lia | now rewrite Hdd].
  2:{ intros c s H. apply negb_true_iff, occurs_cons in H as [H1 H2].
      split; [exact H1 | now rewrite H2]. }
  rewrite (@replace_each_from_free bracketed_in_line_at (py "")
             (fun s => negb (existsb (N.eqb ch_lbracket) s)));
    [| | lia | now rewrite Hbr].
  2:{ intros c s H. apply negb_true_iff in H. cbn [existsb] in H.
      apply orb_false_iff in H as [H1 H2]. split; [|now rewrite H2].
      unfold bracketed_in_line_at, bracketed_upto.
      rewrite N.eqb_sym in H1. now rewrite H1. }
  rewrite (@replace_each_from_free (chapter_at is_decimal) (py "")
             (fun s => negb (occurs (py "Chapter ") s)));
    [reflexivity | | lia | now rewrite Hch].
  intros c s H. apply negb_true_iff, occurs_cons in H as [H1 H2].
  split; [|now rewrite H2]. unfold chapter_at. now rewrite H1.
Qed.

(** X4.  A text with no [--], no opening bracket and no [Chapter ] only has
    its whitespace normalised. *)
Theorem text_cleaner_passes_plain_text (text : str) :
  occurs (py "--") text = false ->
  existsb (N.eqb ch_lbracket) text = false ->
  occurs (py "Chapter ") text = false ->
  text_cleaner is_decimal text = normalize_space text.
Proof. apply text_cleaner_plain. Qed.

Lemma blank_not_special c :
  is_space c = true ->
  N.eqb c ch_dash = false /\ N.eqb ch_lbracket c = false
  /\ N.eqb c (N_of_ascii "C") = false.
Proof.
  intros H. repeat split.
  - destruct (N.eqb_spec c ch_dash) as [->|]; [discriminate H | reflexivity].
  - destruct (N.eqb_spec ch_lbracket c) as [<-|]; [discriminate H | reflexivity].
  - destruct (N.eqb_spec c (N_of_ascii "C")) as [->|]; [discriminate H | reflexivity].
Qed.

Lemma split_from_blank fuel s :
  forallb is_space s = true -> split_from fuel s = [].
Proof.
  revert s; induction fuel as [|fuel IH]; intros s H; [reflexivity|].
  destruct s as [|c s]; [reflexivity|].
  cbn [forallb] in H. apply andb_prop in H as [Hc Hs].
  cbn [split_from]. rewrite Hc. now apply IH.
Qed.

(** X3.  An empty text, or one of whitespace only, is cleaned to the empty
    text. *)
Theorem text_cleaner_of_blank (text : str) :
  forallb is_space text = true -> text_cleaner is_decimal text = [].
Proof.
  intros H. rewrite text_cleaner_plain.
  - unfold normalize_space, split. now rewrite split_from_blank.
  - induction text as [|c s IH]; [reflexivity|].
    cbn [forallb] in H. apply andb_prop in H as [Hc Hs].
    destruct (blank_not_special c Hc) as (Hd & _ & _).
    cbn [occurs strip_prefix py map list_ascii_of_string].
    change (N_of_ascii "-") with ch_dash. rewrite Hd. now apply IH.
  - induction text as [|c s IH]; [reflexivity|].
    cbn [forallb] in H. apply andb_prop in H as [Hc Hs].
    destruct (blank_not_special c Hc) as (_ & Hb & _).
    cbn [existsb]. rewrite Hb. now apply IH.
  - induction text as [|c s IH]; [reflexivity|].
    cbn [forallb] in H. apply andb_prop in H as [Hc Hs].
    destruct (blank_not_special c Hc) as (_ & _ & HC).
    cbn [occurs strip_prefix py map list_ascii_of_string].
    rewrite HC. now apply IH.
Qed.

(** ** Splitting what was joined *)

Lemma take_word_app w r :
  forallb non_blank w = true ->
  (r = [] \/ exists c r', r = c :: r' /\ is_space c = true) ->
  take_word (w ++ r) = (w, r).
Proof.
  intros Hw Hr. induction w as [|c w IH]; cbn [app].
  - destruct Hr as [->|(d & r' & -> & Hd)]; [reflexivity|].
    cbn [take_word]. now rewrite Hd.
  - cbn [forallb] in Hw. apply andb_prop in Hw as [Hc Hw].
    apply negb_true_iff in Hc. cbn [take_word]. rewrite Hc, IH; auto.
Qed.

Lemma split_from_word fuel w r :
  is_word w ->
  (r = [] \/ exists c r', r = c :: r' /\ is_space c = true) ->
  split_from (S fuel) (w ++ r) = w :: split_from fuel r.
Proof.
  intros [Hne Hw] Hr.
  pose proof (@take_word_app w r Hw Hr) as Ht.
  destruct w as [|c w]; [congruence|].
  cbn [forallb] in Hw. apply andb_prop in Hw as [Hc _].
  apply negb_true_iff in Hc.
  cbn [app] in *. cbn [split_from]. rewrite Hc, Ht. reflexivity.
Qed.

Lemma split_join ws :
  Forall is_word ws ->
  forall fuel, length (join (py " ") ws) <= fuel ->
               split_from fuel (join (py " ") ws) = ws.
Proof.
  induction 1 as [|w ws Hw Hws IH]; intros fuel Hfuel.
  - apply split_from_nil.
  - assert (Hpos : 1 <= length w)
      by (destruct Hw as [Hne _]; destruct w; [congruence | simpl; lia]).
    destruct ws as [|w2 ws].
    + cbn [join] in *. destruct fuel as [|fuel]; [lia|].
      rewrite <- (app_nil_r w) at 1.
      rewrite split_from_word, split_from_nil; auto.
    + change (join (py " ") (w :: w2 :: ws))
        with (w ++ ch_space :: join (py " ") (w2 :: ws)) in *.
      rewrite length_app in Hfuel. cbn [length] in Hfuel.
      destruct fuel as [|[|fuel]]; try lia.
      rewrite split_from_word; [| exact Hw | right; eauto].
      cbn [split_from]. change (is_space ch_space) with true. cbv iota.
      f_equal. apply IH. lia.
Qed.


(** X6.  After the first substitution of the cleaner no [--] is left in the
    text. *)
Theorem first_step_leaves_no_double_dash (text : str) :
  occurs (py "--") (re_sub is_decimal re_double_dash (py " ") text) = false.
Proof. apply first_substitution_clean. Qed.

End CleanerFacts.

(** ** The spacing of a cleaned text *)

Lemma shaped_single_spaced b s :
  s <> [] -> (b = true -> no_leading_space s = true) ->
  no_trailing_space s = true -> no_space_pair s = true ->
  blanks_are_spaces s = true ->
  single_spaced b s = true.
Proof.
  unfold blanks_are_spaces.
  revert b; induction s as [|c s IH]; intros b Hne Hlead Htrail Hpair Hblank;
    [congruence|].
  cbn [forallb] in Hblank. apply andb_prop in Hblank as [Hc Hblank].
  cbn [single_spaced]. destruct (is_space c) eqn:Ec.
  - destruct b.
    + specialize (Hlead eq_refl). cbn [no_leading_space] in Hlead.
      rewrite Ec in Hlead. discriminate Hlead.
    + cbn [implb] in Hc. rewrite Hc. cbn [negb andb].
      destruct s as [|d s].
      * cbn [no_trailing_space] in Htrail. rewrite Ec in Htrail.
        discriminate Htrail.
      * cbn [no_space_pair] in Hpair. apply andb_prop in Hpair as [Hcd Hpair].
        rewrite Ec in Hcd. cbn [andb] in Hcd.
        apply IH; [discriminate | intros _; exact Hcd | exact Htrail
                  | exact Hpair | exact Hblank].
  - destruct s as [|d s]; [reflexivity|].
    cbn [no_space_pair] in Hpair. apply andb_prop in Hpair as [_ Hpair].
    apply IH; [discriminate | discriminate | exact Htrail | exact Hpair
              | exact Hblank].
Qed.

(** On a text of tokens with one space between them, splitting and joining
    change nothing. *)
Lemma single_spaced_join fuel :
  forall s, length s <= fuel -> single_spaced true s = true ->
            join (py " ") (split_from fuel s) = s.
Proof.
  induction fuel as [fuel IH] using lt_wf_ind. intros s Hlen Hs.
  destruct s as [|c s]; [discriminate Hs|].
  destruct fuel as [|fuel]; [simpl in Hlen; lia|].
  assert (Hc : is_space c = false).
  { cbn [single_spaced] in Hs. destruct (is_space c); [discriminate Hs|].
    reflexivity. }
  pose proof (take_word_spec (c :: s)) as [Hsplit Hw].
  pose proof (take_word_rest (c :: s)) as Hrest.
  cbn [split_from]. rewrite Hc.
  destruct (take_word (c :: s)) as [w rest] eqn:Ew. cbn [fst snd] in *.
  assert (Hword : is_word w).
  { split; [|exact Hw]. intros ->. cbn [take_word] in Ew. rewrite Hc in Ew.
    destruct (take_word s); discriminate Ew. }
  rewrite Hsplit in Hs, Hlen |- *. rewrite single_spaced_word in Hs by exact Hword.
  rewrite length_app in Hlen.
  assert (Hpos : 1 <= length w)
    by (destruct Hword as [Hne _]; destruct w; [congruence | simpl; lia]).
  destruct Hrest as [->|(d & r & -> & Hd)].
  - rewrite split_from_nil. cbn [join]. now rewrite app_nil_r.
  - cbn [single_spaced] in Hs. rewrite Hd in Hs. cbn [negb andb] in Hs.
    apply andb_prop in Hs as [Hspace Hr]. apply N.eqb_eq in Hspace. subst d.
    cbn [length] in Hlen.
    destruct fuel as [|fuel]; [lia|].
    cbn [split_from]. rewrite Hd.
    assert (Hjoin : join (py " ") (split_from fuel r) = r)
      by (apply IH; [lia | lia | exact Hr]).
    destruct (split_from fuel r) as [|x xs].
    + cbn [join] in Hjoin. subst r. discriminate Hr.
    + change (join (py " ") (w :: x :: xs))
        with (w ++ ch_space :: join (py " ") (x :: xs)).
      now rewrite Hjoin.
Qed.

(** C8.  A cleaned text neither starts nor ends with whitespace, has no two
    whitespace characters in a row, and its only whitespace is the space.
    Its tokens are those of the text after the three substitutions, in
    order: every run of whitespace between two tokens has become one space
    and the runs at both ends are gone.  It is the one text of that shape
    with these tokens. *)
Theorem text_cleaner_spacing (is_decimal : char -> bool) (text : str) :
  no_leading_space (text_cleaner is_decimal text) = true
  /\ no_trailing_space (text_cleaner is_decimal text) = true
  /\ no_space_pair (text_cleaner is_decimal text) = true
  /\ blanks_are_spaces (text_cleaner is_decimal text) = true
  /\ filter non_blank (text_cleaner is_decimal text)
     = filter non_blank
         (re_sub is_decimal re_chapter (py "")
            (re_sub is_decimal re_bracketed (py "")
               (re_sub is_decimal re_double_dash (py " ") text)))
  /\ split (text_cleaner is_decimal text)
     = split
         (re_sub is_decimal re_chapter (py "")
            (re_sub is_decimal re_bracketed (py "")
               (re_sub is_decimal re_double_dash (py " ") text)))
  /\ forall s : str,
       no_leading_space s = true -> no_trailing_space s = true ->
       no_space_pair s = true -> blanks_are_spaces s = true ->
       split s
       = split
           (re_sub is_decimal re_chapter (py "")
              (re_sub is_decimal re_bracketed (py "")
                 (re_sub is_decimal re_double_dash (py " ") text))) ->
       s = text_cleaner is_decimal text.
Proof.
  set (t := re_sub is_decimal re_chapter (py "")
              (re_sub is_decimal re_bracketed (py "")
                 (re_sub is_decimal re_double_dash (py " ") text))).
  change (text_cleaner is_decimal text) with (normalize_space t).
  destruct (normalize_space_shape t) as (H1 & H2 & H3 & H4).
  repeat (split; [assumption|]).
  split; [apply normalize_space_keeps|]. split.
  - unfold normalize_space. unfold split at 1.
    apply split_join; [apply split_from_words | apply Nat.le_refl].
  - intros s L1 L2 L3 L4 Hs. unfold normalize_space. rewrite <- Hs.
    destruct s as [|c s]; [reflexivity|].
    symmetry. apply single_spaced_join; [lia|].
    apply shaped_single_spaced; auto. discriminate.
Qed.

(* ================================================================== *)
(** * Lists, positions and order *)

Section ListFacts.
Context {A B : Type}.

Lemma update_last (st : list A) (x y : A) :
  update (length st) x (st ++ [y]) = st ++ [x].
Proof. induction st as [|a st IH]; simpl; [reflexivity | now rewrite IH]. Qed.

Lemma nth_error_last (st : list A) (y : A) :
  nth_error (st ++ [y]) (length st) = Some y.
Proof. induction st as [|a st IH]; simpl; [reflexivity | exact IH]. Qed.

Lemma nth_error_old (st ext : list A) (r : nat) (o : A) :
  nth_error st r = Some o -> nth_error (st ++ ext) r = Some o.
Proof.
  intros H. rewrite nth_error_app1; [exact H|].
  apply nth_error_Some. congruence.
Qed.

Lemma take_app (l : list A) (i1 i2 : list nat) :
  take l (i1 ++ i2) = take l i1 ++ take l i2.
Proof. apply flat_map_app. Qed.

Lemma take_seq_from (pre l : list A) :
  take (pre ++ l) (seq (length pre) (length l)) = l.
Proof.
  revert pre; induction l as [|x l IH]; intros pre; [reflexivity|].
  cbn [length seq]. unfold take at 1. cbn [flat_map].
  rewrite nth_error_app2, Nat.sub_diag by lia. cbn [nth_error app].
  f_equal. specialize (IH (pre ++ [x])).
  rewrite <- app_assoc, length_app, Nat.add_1_r in IH. exact IH.
Qed.

Lemma take_all (l : list A) : take l (seq 0 (length l)) = l.
Proof. exact (take_seq_from [] l). Qed.

Lemma take_perm (l : list A) (i1 i2 : list nat) :
  Permutation i1 i2 -> Permutation (take l i1) (take l i2).
Proof.
  induction 1 as [|i i1 i2 _ IH|i j i1|i1 i2 i3 _ IH1 _ IH2].
  - constructor.
  - unfold take in *; cbn [flat_map]. now apply Permutation_app_head.
  - unfold take; cbn [flat_map]. rewrite !app_assoc.
    apply Permutation_app_tail, Permutation_app_comm.
  - now transitivity (take l i2).
Qed.

Lemma take_rev (l : list A) (idx : list nat) :
  take l (rev idx) = rev (take l idx).
Proof.
  induction idx as [|i idx IH]; [reflexivity|].
  cbn [rev]. rewrite take_app, IH. unfold take at 2 3. cbn [flat_map].
  rewrite rev_app_distr, app_nil_r.
  now destruct (nth_error l i).
Qed.

Lemma take_map (f : A -> B) (l : list A) (idx : list nat) :
  map f (take l idx) = take (map f l) idx.
Proof.
  induction idx as [|i idx IH]; [reflexivity|].
  unfold take in *; cbn [flat_map]. rewrite map_app, IH, nth_error_map.
  now destruct (nth_error l i).
Qed.

Lemma take_in (l : list A) (idx : list nat) (x : A) :
  In x (take l idx) -> In x l.
Proof.
  unfold take. rewrite in_flat_map. intros (i & _ & Hx).
  destruct (nth_error l i) eqn:E; [|contradiction].
  destruct Hx as [<-|[]]. eauto using nth_error_In.
Qed.

Lemma filter_both (p : A -> bool) (l : list A) :
  Permutation (filter (fun x => negb (p x)) l ++ filter p l) l.
Proof.
  induction l as [|x l IH]; [constructor|].
  cbn [filter]. destruct (p x); cbn [negb app].
  - symmetry. apply Permutation_cons_app. now symmetry.
  - now constructor.
Qed.

Lemma combine_app (l1 l2 : list A) (k1 k2 : list B) :
  length l1 = length k1 ->
  combine (l1 ++ l2) (k1 ++ k2) = combine l1 k1 ++ combine l2 k2.
Proof.
  revert k1; induction l1 as [|x l1 IH]; intros [|y k1] H;
    simpl in *; try discriminate; [reflexivity|].
  f_equal. apply IH. lia.
Qed.

Lemma map_snd_combine (l : list A) (k : list B) :
  length l = length k -> map snd (combine l k) = k.
Proof.
  revert k; induction l as [|x l IH]; intros [|y k] H;
    simpl in *; try discriminate; [reflexivity|].
  f_equal. apply IH. lia.
Qed.

Variable R : A -> A -> Prop.

Lemma StronglySorted_app (l1 l2 : list A) :
  StronglySorted R l1 -> StronglySorted R l2 ->
  (forall a b, In a l1 -> In b l2 -> R a b) ->
  StronglySorted R (l1 ++ l2).
Proof.
  induction 1 as [|a l1 Hs IH Ha]; intros H2 Hc; [exact H2|].
  cbn [app]. constructor.
  - apply IH; [exact H2|]. intros; apply Hc; simpl; auto.
  - apply Forall_app; split; [exact Ha|].
    apply Forall_forall. intros b Hb. apply Hc; simpl; auto.
Qed.

Lemma StronglySorted_split (l1 l2 : list A) :
  StronglySorted R (l1 ++ l2) ->
  StronglySorted R l1 /\ Forall (fun a => Forall (R a) l2) l1.
Proof.
  induction l1 as [|a l1 IH]; cbn [app]; intros H.
  - split; constructor.
  - apply StronglySorted_inv in H as [Hs Ha].
    apply IH in Hs as [Hs1 Hs2]. apply Forall_app in Ha as [Ha1 Ha2].
    split; constructor; assumption.
Qed.

Lemma StronglySorted_all (l : list A) :
  Forall (fun b => forall a, R a b) l -> StronglySorted R l.
Proof.
  induction 1 as [|b l Hb Hl IH]; constructor; [exact IH|].
  apply Forall_forall. intros c Hc.
  rewrite Forall_forall in Hl. now apply Hl.
Qed.

End ListFacts.

Lemma StronglySorted_rev_flip {A : Type} (R : A -> A -> Prop) (l : list A) :
  StronglySorted R l -> StronglySorted (fun a b => R b a) (rev l).
Proof.
  induction 1 as [|a l Hs IH Ha]; [constructor|].
  cbn [rev]. apply StronglySorted_app.
  - exact IH.
  - repeat constructor.
  - intros b c Hb [<-|[]]. apply in_rev in Hb.
    rewrite Forall_forall in Ha. now apply Ha.
Qed.

Lemma StronglySorted_map_inv {A B : Type} (R : B -> B -> Prop) (f : A -> B)
    (l : list A) :
  StronglySorted R (map f l) -> StronglySorted (fun a b => R (f a) (f b)) l.
Proof.
  induction l as [|a l IH]; cbn [map]; intros H; [constructor|].
  apply StronglySorted_inv in H as [Hs Ha].
  constructor; [now apply IH|].
  rewrite Forall_map in Ha. exact Ha.
Qed.

Lemma StronglySorted_weaken {A : Type} (R R' : A -> A -> Prop) (P : A -> Prop)
    (l : list A) :
  (forall a b, P a -> P b -> R a b -> R' a b) ->
  Forall P l -> StronglySorted R l -> StronglySorted R' l.
Proof.
  intros HR HP Hs. induction Hs as [|a l Hs IH Ha]; [constructor|].
  apply Forall_cons_iff in HP as [Pa Pl].
  constructor; [now apply IH|].
  rewrite Forall_forall in *. intros b Hb. apply HR; auto.
Qed.

(* ================================================================== *)
(** * Sorting a column *)

Section SortFacts.
Variable F : Type.
Variable isnan : F -> bool.
Variable fle : F -> F -> bool.
Variable argsort : list F -> list nat.

(** What numpy promises of [argsort]: a rearrangement of the positions
    that puts values free of NaN in increasing order. *)
Hypothesis argsort_perm :
  forall l, Permutation (argsort l) (seq 0 (length l)).
Hypothesis argsort_sorted :
  forall l, Forall (fun x => isnan x = false) l ->
            StronglySorted (fun x y => fle x y = true) (take l (argsort l)).

Local Abbreviation sorted_desc := (sort_values_desc isnan argsort).
Local Abbreviation before := (before isnan fle).

Lemma sort_values_perm (s : fseries F) : Permutation (sorted_desc s) s.
Proof.
  unfold sort_values_desc.
  set (good := filter (fun p => negb (isnan (snd p))) s).
  rewrite <- (filter_both (fun p => isnan (snd p)) s) at 2.
  apply Permutation_app_tail. fold good.
  rewrite take_rev, <- Permutation_rev.
  transitivity (take good (seq 0 (length good))).
  - apply take_perm. rewrite <- (length_map snd good). apply argsort_perm.
  - now rewrite take_all.
Qed.

Lemma sort_values_length (s : fseries F) : length (sorted_desc s) = length s.
Proof. apply Permutation_length, sort_values_perm. Qed.

Lemma sort_values_sorted (s : fseries F) : StronglySorted before (sorted_desc s).
Proof.
  unfold sort_values_desc.
  set (good := filter (fun p => negb (isnan (snd p))) s).
  set (bad := filter (fun p => isnan (snd p)) s).
  assert (Hgood : Forall (fun p => isnan (snd p) = false) good).
  { apply Forall_forall. intros p Hp. apply filter_In in Hp as [_ Hp].
    now apply negb_true_iff. }
  assert (Hbad : Forall (fun p => isnan (snd p) = true) bad).
  { apply Forall_forall. intros p Hp. now apply filter_In in Hp as [_ Hp]. }
  apply StronglySorted_app.
  - rewrite take_rev.
    apply StronglySorted_weaken
      with (R := fun a b => fle (snd b) (snd a) = true)
           (P := fun p => isnan (snd p) = false).
    + intros a b Ha _ Hab. right. split; assumption.
    + apply Forall_rev, Forall_forall. intros p Hp. apply take_in in Hp.
      rewrite Forall_forall in Hgood. now apply Hgood.
    + apply StronglySorted_rev_flip with (R := fun a b => fle (snd a) (snd b) = true).
      apply StronglySorted_map_inv with (R := fun x y => fle x y = true) (f := snd).
      rewrite take_map. apply argsort_sorted.
      apply Forall_map. exact Hgood.
  - apply StronglySorted_all. apply Forall_forall. intros b Hb a.
    left. rewrite Forall_forall in Hbad. now apply Hbad.
  - intros a b _ Hb. left. rewrite Forall_forall in Hbad. now apply Hbad.
Qed.

(** The first [n] entries of the sorted column: [n] rows of the column, in
    decreasing order, none below a row that was left out. *)
Lemma sort_values_head (s : fseries F) (n : nat) :
  n <= length s ->
  let chosen := firstn n (sorted_desc s) in
  let others := skipn n (sorted_desc s) in
  Permutation (chosen ++ others) s
  /\ length chosen = n
  /\ StronglySorted before chosen
  /\ Forall (fun a => Forall (before a) others) chosen.
Proof.
  intros Hn chosen others. subst chosen others.
  pose proof (sort_values_sorted s) as Hs.
  rewrite <- (firstn_skipn n (sorted_desc s)) in Hs.
  apply StronglySorted_split in Hs as [Hs1 Hs2].
  repeat split; try assumption.
  - rewrite firstn_skipn. apply sort_values_perm.
  - apply firstn_length_le. now rewrite sort_values_length.
Qed.

End SortFacts.

(* ================================================================== *)
(** * Filling the Series of top words *)

Lemma in_np_repeat (xs : list nat) (n x : nat) :
  In x (np_repeat xs n) -> In x xs.
Proof.
  unfold np_repeat. rewrite in_flat_map. intros (y & Hy & Hx).
  apply repeat_spec in Hx. now subst.
Qed.

Lemma np_repeat_length (xs : list nat) (n : nat) :
  length (np_repeat xs n) = length xs * n.
Proof.
  induction xs as [|x xs IH]; [reflexivity|].
  unfold np_repeat in *; cbn [flat_map]. rewrite length_app, repeat_length, IH.
  simpl. lia.
Qed.

Lemma np_repeat_app (xs ys : list nat) (n : nat) :
  np_repeat (xs ++ ys) n = np_repeat xs n ++ np_repeat ys n.
Proof. apply flat_map_app. Qed.

Lemma assign_cells_absent (label : nat) (labs : list nat) (cs : list cell) :
  ~ In label labs -> length labs = length cs ->
  assign_cells label labs cs [] = Some cs.
Proof.
  revert cs; induction labs as [|l labs IH]; intros [|v cs] Hin Hlen;
    simpl in *; try discriminate; [reflexivity|].
  destruct (Nat.eqb_spec l label) as [->|_]; [tauto|].
  rewrite IH; [reflexivity | tauto | lia].
Qed.

Lemma assign_cells_before (label : nat) (pre labs : list nat)
    (vpre cs : list cell) (new : list str) :
  ~ In label pre -> length pre = length vpre ->
  assign_cells label (pre ++ labs) (vpre ++ cs) new
  = option_map (app vpre) (assign_cells label labs cs new).
Proof.
  revert vpre; induction pre as [|l pre IH]; intros [|v vpre] Hin Hlen;
    simpl in *; try discriminate.
  - now destruct (assign_cells label labs cs new).
  - destruct (Nat.eqb_spec l label) as [->|_]; [tauto|].
    rewrite IH by (tauto || lia).
    now destruct (assign_cells label labs cs new).
Qed.

Lemma assign_cells_under (label n : nat) (labs : list nat)
    (old cs : list cell) (new : list str) :
  length old = n -> length new = n ->
  ~ In label labs -> length labs = length cs ->
  assign_cells label (repeat label n ++ labs) (old ++ cs) new
  = Some (map Str new ++ cs).
Proof.
  revert old new; induction n as [|n IH]; intros old new Hold Hnew Hin Hlen.
  - destruct old, new; try discriminate. simpl. now apply assign_cells_absent.
  - destruct old as [|v old], new as [|x new]; try discriminate.
    simpl. rewrite Nat.eqb_refl.
    rewrite IH by (simpl in *; tauto || lia). reflexivity.
Qed.

Lemma count_np_repeat (n a k c : nat) :
  a <= c < a + k -> count_occ Nat.eq_dec (np_repeat (seq a k) n) c = n.
Proof.
  revert a; induction k as [|k IH]; intros a Hc; [lia|].
  cbn [seq]. unfold np_repeat; cbn [flat_map]. fold (np_repeat (seq (S a) k) n).
  rewrite count_occ_app.
  destruct (Nat.eq_dec a c) as [->|Hne].
  - rewrite count_occ_repeat_eq by reflexivity.
    rewrite (proj1 (count_occ_not_In Nat.eq_dec _ _)); [lia|].
    intros H. apply in_np_repeat, in_seq in H. lia.
  - rewrite count_occ_repeat_neq by congruence. simpl. apply IH. lia.
Qed.

Lemma np_repeat_one (xs : list nat) : np_repeat xs 1 = xs.
Proof.
  induction xs as [|x xs IH]; [reflexivity|].
  change (np_repeat (x :: xs) 1) with (x :: np_repeat xs 1). now rewrite IH.
Qed.

Lemma several_positions {A : Type} (n : nat) (x y z : A) :
  2 <= n -> match n with 0 => x | 1 => y | S (S _) => z end = z.
Proof. destruct n as [|[|n]]; [lia | lia | reflexivity]. Qed.

(** One pass of the loop of [top_words] for two words or more: the block of
    column [a] goes from NaN to its strings, nothing else moves. *)
Lemma loc_assign_block (n a k : nat) (done : list cell) (new : list str) :
  2 <= n -> length done = a * n -> length new = n ->
  loc_assign_value
    {| labels := np_repeat (seq 0 (a + S k)) n;
       cells := done ++ repeat NaN (S k * n) |} a new
  = Some {| labels := np_repeat (seq 0 (a + S k)) n;
            cells := (done ++ map Str new) ++ repeat NaN (k * n) |}.
Proof.
  intros Hn Hdone Hnew. unfold loc_assign_value. cbn [labels cells].
  rewrite count_np_repeat by lia. rewrite several_positions by exact Hn.
  assert (Hlabs : np_repeat (seq 0 (a + S k)) n
                  = np_repeat (seq 0 a) n
                    ++ repeat a n ++ np_repeat (seq (S a) k) n).
  { rewrite seq_app, np_repeat_app. cbn [seq plus].
    unfold np_repeat at 2. cbn [flat_map]. reflexivity. }
  rewrite Hlabs.
  replace (S k * n) with (n + k * n) by lia. rewrite repeat_app.
  rewrite assign_cells_before.
  - rewrite assign_cells_under; cbn [option_map].
    + now rewrite <- app_assoc.
    + apply repeat_length.
    + exact Hnew.
    + intros H. apply in_np_repeat, in_seq in H. lia.
    + rewrite np_repeat_length, repeat_length, length_seq. reflexivity.
  - intros H. apply in_np_repeat, in_seq in H. lia.
  - rewrite np_repeat_length, length_seq. lia.
Qed.

Lemma fill_columns (g : nat -> list str) (n k a : nat) (done : list cell) :
  2 <= n -> length done = a * n ->
  (forall c, a <= c < a + k -> length (g c) = n) ->
  fold_left (fill_step g) (seq a k)
    (Some {| labels := np_repeat (seq 0 (a + k)) n;
             cells := done ++ repeat NaN (k * n) |})
  = Some {| labels := np_repeat (seq 0 (a + k)) n;
            cells := done ++ flat_map (fun c => map Str (g c)) (seq a k) |}.
Proof.
  intros Hn. revert a done; induction k as [|k IH]; intros a done Hdone Hg.
  - reflexivity.
  - cbn [seq fold_left fill_step flat_map].
    rewrite loc_assign_block by (auto; apply Hg; lia).
    replace (a + S k) with (S a + k) by lia.
    rewrite IH.
    + now rewrite <- app_assoc.
    + rewrite length_app, length_map, Hg by lia. simpl. lia.
    + intros c Hc. apply Hg. lia.
Qed.

Lemma fill_all (g : nat -> list str) (n k : nat) :
  2 <= n -> (forall c, c < k -> length (g c) = n) ->
  fold_left (fill_step g) (seq 0 k) (Some (empty_series (np_repeat (seq 0 k) n)))
  = Some {| labels := np_repeat (seq 0 k) n;
            cells := flat_map (fun c => map Str (g c)) (seq 0 k) |}.
Proof.
  intros Hn Hg. unfold empty_series.
  rewrite np_repeat_length, length_seq.
  apply (@fill_columns g n k 0 []); auto.
  intros c Hc. apply Hg. lia.
Qed.

(** The same pass for one word: the index has every column number once, and
    the one value under [a] becomes the list-like, whatever it holds. *)
Lemma assign_cell_at (label : nat) (pre labs : list nat) (vpre cs : list cell)
    (v new : cell) :
  ~ In label pre -> length pre = length vpre ->
  assign_cell label (pre ++ label :: labs) (vpre ++ v :: cs) new
  = vpre ++ new :: cs.
Proof.
  revert vpre; induction pre as [|l pre IH]; intros [|w vpre] Hin Hlen;
    simpl in *; try discriminate.
  - now rewrite Nat.eqb_refl.
  - destruct (Nat.eqb_spec l label) as [->|_]; [tauto|].
    rewrite IH by (tauto || lia). reflexivity.
Qed.

Lemma loc_assign_one (a k : nat) (done : list cell) (new : list str) :
  length done = a ->
  loc_assign_value
    {| labels := seq 0 (a + S k); cells := done ++ repeat NaN (S k) |} a new
  = Some {| labels := seq 0 (a + S k);
            cells := (done ++ [Strs new]) ++ repeat NaN k |}.
Proof.
  intros Hdone. unfold loc_assign_value. cbn [labels cells].
  rewrite <- (np_repeat_one (seq 0 (a + S k))) at 1.
  rewrite count_np_repeat by lia.
  rewrite seq_app. cbn [seq plus repeat].
  rewrite assign_cell_at.
  - now rewrite <- app_assoc.
  - intros H. apply in_seq in H. lia.
  - now rewrite length_seq.
Qed.

Lemma fill_columns_one (g : nat -> list str) (k a : nat) (done : list cell) :
  length done = a ->
  fold_left (fill_step g) (seq a k)
    (Some {| labels := seq 0 (a + k); cells := done ++ repeat NaN k |})
  = Some {| labels := seq 0 (a + k);
            cells := done ++ map (fun c => Strs (g c)) (seq a k) |}.
Proof.
  revert a done; induction k as [|k IH]; intros a done Hdone.
  - reflexivity.
  - cbn [seq fold_left fill_step map].
    rewrite loc_assign_one by exact Hdone.
    replace (a + S k) with (S a + k) by lia.
    rewrite IH.
    + now rewrite <- app_assoc.
    + rewrite length_app. simpl. lia.
Qed.

Lemma fill_all_one (g : nat -> list str) (k : nat) :
  fold_left (fill_step g) (seq 0 k) (Some (empty_series (np_repeat (seq 0 k) 1)))
  = Some {| labels := np_repeat (seq 0 k) 1;
            cells := map (fun c => Strs (g c)) (seq 0 k) |}.
Proof.
  unfold empty_series. rewrite np_repeat_one, length_seq.
  apply (@fill_columns_one g k 0 []). reflexivity.
Qed.

(** Reading the finished Series back topic by topic. *)
Lemma loc_get_absent (c : nat) (labs : list nat) (cs : list cell) :
  ~ In c labs -> loc_get {| labels := labs; cells := cs |} c = [].
Proof.
  unfold loc_get; cbn [labels cells].
  revert cs; induction labs as [|l labs IH]; intros [|v cs] Hin;
    simpl in *; try reflexivity.
  destruct (Nat.eqb_spec l c) as [->|_]; [tauto|]. apply IH. tauto.
Qed.

Lemma loc_get_app (c : nat) (l1 l2 : list nat) (c1 c2 : list cell) :
  length l1 = length c1 ->
  loc_get {| labels := l1 ++ l2; cells := c1 ++ c2 |} c
  = loc_get {| labels := l1; cells := c1 |} c
    ++ loc_get {| labels := l2; cells := c2 |} c.
Proof.
  intros H. unfold loc_get; cbn [labels cells].
  now rewrite combine_app, filter_app, map_app.
Qed.

Lemma loc_get_block (c n : nat) (cs : list cell) :
  length cs = n -> loc_get {| labels := repeat c n; cells := cs |} c = cs.
Proof.
  unfold loc_get; cbn [labels cells].
  revert cs; induction n as [|n IH]; intros [|v cs] H;
    simpl in *; try discriminate; [reflexivity|].
  rewrite Nat.eqb_refl. simpl. f_equal. apply IH. lia.
Qed.

Lemma loc_get_filled (h : nat -> list cell) (n k a c : nat) :
  (forall x, a <= x < a + k -> length (h x) = n) ->
  a <= c < a + k ->
  loc_get {| labels := np_repeat (seq a k) n; cells := flat_map h (seq a k) |} c
  = h c.
Proof.
  revert a; induction k as [|k IH]; intros a Hh Hc; [lia|].
  cbn [seq]. unfold np_repeat; cbn [flat_map]. fold (np_repeat (seq (S a) k) n).
  rewrite loc_get_app by (rewrite repeat_length, Hh; lia).
  destruct (Nat.eq_dec a c) as [->|Hne].
  - rewrite loc_get_block by (apply Hh; lia).
    rewrite loc_get_absent, app_nil_r; [reflexivity|].
    intros H. apply in_np_repeat, in_seq in H. lia.
  - rewrite (@loc_get_absent c (repeat a n)).
    + apply IH; [intros; apply Hh|]; lia.
    + intros H. apply repeat_spec in H. congruence.
Qed.

(* ================================================================== *)
(** * Running the helpers on a store *)

Section FrameFacts.
Variable F : Type.
Variable fzero : F.
Variables fadd fmul : F -> F -> F.
Variable isnan : F -> bool.
Variable fle : F -> F -> bool.
Variable round2 : F -> F.
Variable str_float : F -> str.
Variable argsort : list F -> list nat.

Local Abbreviation top_words' := (top_words fzero isnan round2 str_float argsort).
Local Abbreviation top_words_value' :=
  (top_words_value fzero isnan round2 str_float argsort).
Local Abbreviation chosen_words' :=
  (chosen_words fzero isnan round2 str_float argsort).
Local Abbreviation word_topic' := (word_topic fzero fadd fmul).
Local Abbreviation word_topic_value' := (word_topic_value fzero fadd fmul).

Lemma bind_load_frame {A : Type} (st : store F) (r : ref) (f : frame F)
    (k : frame F -> M F A) :
  nth_error st r = Some (VFrame f) -> bind (load_frame r) k st = k f st.
Proof. intros H. unfold load_frame, bind, load, ret. now rewrite H. Qed.

Lemma bind_load_matrix {A : Type} (st : store F) (r : ref) (m : ndarray F)
    (k : ndarray F -> M F A) :
  nth_error st r = Some (VMatrix m) -> bind (load_matrix r) k st = k m st.
Proof. intros H. unfold load_matrix, bind, load, ret. now rewrite H. Qed.

Lemma bind_load_list {A : Type} (st : store F) (r : ref) (l : list str)
    (k : list str -> M F A) :
  nth_error st r = Some (VList F l) -> bind (load_list r) k st = k l st.
Proof. intros H. unfold load_list, bind, load, ret. now rewrite H. Qed.

Lemma bind_load_series {A : Type} (st : store F) (r : ref) (s : series)
    (k : series -> M F A) :
  nth_error st r = Some (VSeries F s) -> bind (load_series r) k st = k s st.
Proof. intros H. unfold load_series, bind, load, ret. now rewrite H. Qed.

Lemma fill_step_none (g : nat -> list str) (cols : list nat) :
  fold_left (fill_step g) cols None = None.
Proof. induction cols; simpl; auto. Qed.

(** The loop of [top_words], started on a store whose last object is the
    Series being filled: it rewrites that object and nothing else. *)
Lemma for_each_column (st : store F) (components : ref) (f : frame F)
    (n_top_words : nat) (cols : list nat) (s : series) :
  nth_error st components = Some (VFrame f) ->
  Forall (fun c => c < shape1 (data f)) cols ->
  for_each cols
    (fun column =>
       bind (load_frame components) (fun f =>
       bind (lift (iloc_column fzero f column)) (fun col =>
       let sortedwords := sort_values_desc isnan argsort col in
       let chosen := firstn n_top_words sortedwords in
       let chosenlist := map (label_and_loading round2 str_float) chosen in
       loc_assign (length st) column chosenlist)))
    (st ++ [VSeries F s])
  = match fold_left (fill_step (chosen_words' f n_top_words)) cols (Some s) with
    | Some s' => Some (tt, st ++ [VSeries F s'])
    | None => None
    end.
Proof.
  intros Hf Hcols. revert s; induction Hcols as [|c cols Hc _ IH]; intros s.
  - reflexivity.
  - cbn [for_each fold_left fill_step].
    unfold bind at 1.
    assert (Hf' : nth_error (st ++ [VSeries F s]) components = Some (VFrame f))
      by (apply nth_error_old; exact Hf).
    rewrite bind_load_frame with (f := f) by exact Hf'.
    unfold iloc_column. apply Nat.ltb_lt in Hc. rewrite Hc.
    unfold bind at 1. cbn [lift]. cbv zeta.
    unfold loc_assign.
    rewrite bind_load_series with (s := s) by apply nth_error_last.
    fold (chosen_words' f n_top_words c).
    destruct (loc_assign_value s c (chosen_words' f n_top_words c)) as [s'|].
    + unfold bind at 1. cbn [lift]. unfold store_at.
      rewrite length_app, Nat.add_1_r.
      replace (Nat.ltb (length st) (S (length st))) with true
        by (symmetry; apply Nat.ltb_lt; lia).
      rewrite update_last. apply IH.
    + unfold bind at 1. cbn [lift]. now rewrite fill_step_none.
Qed.

(** [top_words] allocates one Series behind the store it was given; the
    Series is the one [top_words_value] computes from the frame. *)
Lemma top_words_run (st : store F) (components : ref) (f : frame F)
    (n_top_words : nat) :
  nth_error st components = Some (VFrame f) ->
  top_words' components n_top_words st
  = match top_words_value' f n_top_words with
    | Some s => Some (length st, st ++ [VSeries F s])
    | None => None
    end.
Proof.
  intros Hf. unfold top_words.
  rewrite bind_load_frame with (f := f) by exact Hf. cbv zeta.
  unfold bind at 1, alloc.
  match goal with
  | |- context [st ++ [?o]] =>
      assert (Hf' : nth_error (st ++ [o]) components = Some (VFrame f))
        by (apply nth_error_old; exact Hf)
  end.
  rewrite bind_load_frame with (f := f) by exact Hf'.
  unfold bind at 1.
  rewrite for_each_column with (f := f).
  - unfold top_words_value. fold (fill_step (chosen_words' f n_top_words)).
    now destruct (fold_left _ _ _).
  - exact Hf.
  - apply Forall_forall. intros c Hc. apply in_seq in Hc. lia.
Qed.

Lemma word_topic_run (st : store F) (tfidf solution wordlist : ref)
    (a b : ndarray F) (l : list str) :
  nth_error st tfidf = Some (VMatrix a) ->
  nth_error st solution = Some (VMatrix b) ->
  nth_error st wordlist = Some (VList F l) ->
  word_topic' tfidf solution wordlist st
  = match word_topic_value' a b l with
    | Some f => Some (length st, st ++ [VFrame f])
    | None => None
    end.
Proof.
  intros Ha Hb Hl. unfold word_topic, word_topic_value.
  rewrite bind_load_matrix with (m := a) by exact Ha.
  rewrite bind_load_matrix with (m := b) by exact Hb.
  destruct (matmul fzero fadd fmul (transpose fzero a) b) as [p|];
    unfold bind at 1; cbn [lift]; [|reflexivity].
  rewrite bind_load_list with (l := l) by exact Hl.
  destruct (new_frame p l); unfold bind; cbn [lift]; reflexivity.
Qed.

(** ** The values *)

Lemma fold_left_map {X Y Z : Type} (f : X -> Z -> X) (g : Y -> Z)
    (l : list Y) (x : X) :
  fold_left f (map g l) x = fold_left (fun acc y => f acc (g y)) l x.
Proof. revert x; induction l as [|y l IH]; intros x; simpl; auto. Qed.

Lemma fold_left_pointwise {X Y : Type} (f g : X -> Y -> X) (l : list Y) (x : X) :
  (forall acc y, f acc y = g acc y) -> fold_left f l x = fold_left g l x.
Proof.
  intros H. revert x; induction l as [|y l IH]; intros x; simpl;
    [reflexivity | now rewrite H, IH].
Qed.

Lemma dot_fold (u v : list F) (acc : F) :
  length u = length v ->
  fold_left (fun acc p => fadd acc (fmul (fst p) (snd p))) (combine u v) acc
  = fold_left (fun acc k => fadd acc (fmul (nth k u fzero) (nth k v fzero)))
      (seq 0 (length u)) acc.
Proof.
  revert v acc; induction u as [|x u IH]; intros [|y v] acc H;
    simpl in *; try discriminate; [reflexivity|].
  rewrite <- seq_shift, fold_left_map. apply IH. lia.
Qed.

Lemma dot_as_sum (u v : list F) :
  length u = length v ->
  dot fzero fadd fmul u v
  = fold_left (fun acc k => fadd acc (fmul (nth k u fzero) (nth k v fzero)))
      (seq 0 (length u)) fzero.
Proof. apply dot_fold. Qed.

Lemma nth_map_seq {X : Type} (f : nat -> X) (m i : nat) (d : X) :
  i < m -> nth i (map f (seq 0 m)) d = f i.
Proof.
  intros H. rewrite (nth_indep _ d (f 0)) by now rewrite length_map, length_seq.
  rewrite map_nth, seq_nth by exact H. reflexivity.
Qed.

Lemma nth_column (m : ndarray F) (j k : nat) :
  nth k (column_values fzero m j) fzero = get fzero m k j.
Proof.
  unfold column_values, get. generalize (rows m) as l.
  intros l; revert k; induction l as [|r l IH]; intros [|k]; simpl;
    try apply IH; try reflexivity; now destruct j.
Qed.

Lemma matmul_transpose (a b : ndarray F) :
  well_shaped a -> well_shaped b -> shape0 a = shape0 b ->
  exists p,
    matmul fzero fadd fmul (transpose fzero a) b = Some p
    /\ shape0 p = shape1 a /\ shape1 p = shape1 b
    /\ well_shaped p
    /\ forall i j, i < shape1 a -> j < shape1 b ->
                   get fzero p i j = sum_products fzero fadd fmul a b i j.
Proof.
  intros [Ha _] [Hb _] Hab. unfold matmul. cbn [transpose shape1 shape0 rows].
  rewrite Hab, Nat.eqb_refl. eexists. split; [reflexivity|].
  split; [reflexivity|]. split; [reflexivity|]. split; [split|].
  - simpl. now rewrite !length_map, length_seq.
  - simpl. apply Forall_map, Forall_map, Forall_forall. intros i _. cbv beta.
    now rewrite length_map, length_seq.
  - intros i j Hi Hj. unfold get at 1. simpl rows.
    rewrite map_map, nth_map_seq by exact Hi.
    rewrite nth_map_seq by exact Hj.
    rewrite dot_as_sum
      by (unfold column_values; rewrite !length_map; congruence).
    replace (length (column_values fzero a i)) with (shape0 a)
      by (unfold column_values; now rewrite length_map).
    unfold sum_products. apply fold_left_pointwise.
    intros acc k. now rewrite !nth_column.
Qed.

(** ** top_words on a frame as pandas builds it *)


Hypothesis argsort_perm :
  forall l, Permutation (argsort l) (seq 0 (length l)).
Hypothesis argsort_sorted :
  forall l, Forall (fun x => isnan x = false) l ->
            StronglySorted (fun x y => fle x y = true) (take l (argsort l)).

Lemma iloc_column_length (f : frame F) (c : nat) :
  frame_ok f ->
  length (combine (index f) (column_values fzero (data f) c)) = length (index f).
Proof.
  intros [[Hrows _] Hidx]. unfold column_values.
  rewrite length_combine, length_map. lia.
Qed.

Lemma chosen_words_length (f : frame F) (n c : nat) :
  frame_ok f -> n <= length (index f) ->
  length (chosen_words' f n c) = n.
Proof.
  intros Hf Hn. unfold chosen_words. rewrite length_map.
  apply firstn_length_le.
  rewrite (@sort_values_length F isnan argsort argsort_perm), iloc_column_length; auto.
Qed.

Lemma top_words_value_filled (f : frame F) (n : nat) :
  frame_ok f -> 2 <= n -> n <= length (index f) ->
  top_words_value' f n
  = Some {| labels := np_repeat (seq 0 (shape1 (data f))) n;
            cells := flat_map (fun c => map Str (chosen_words' f n c))
                       (seq 0 (shape1 (data f))) |}.
Proof.
  intros Hf H1 Hn. unfold top_words_value.
  apply (fill_all (chosen_words' f n)); [exact H1|].
  intros c _. now apply chosen_words_length.
Qed.

(** Asked for one word, whatever the frame. *)
Lemma top_words_value_one (f : frame F) :
  top_words_value' f 1
  = Some {| labels := np_repeat (seq 0 (shape1 (data f))) 1;
            cells := map (fun c => Strs (chosen_words' f 1 c))
                       (seq 0 (shape1 (data f))) |}.
Proof. unfold top_words_value. apply (fill_all_one (chosen_words' f 1)). Qed.

Lemma flat_map_single {X Y : Type} (h : X -> Y) (l : list X) :
  flat_map (fun x => [h x]) l = map h l.
Proof. induction l as [|x l IH]; simpl; [reflexivity | now rewrite IH]. Qed.

Lemma repeat_ascending (a n : nat) : StronglySorted le (repeat a n).
Proof.
  induction n as [|n IH]; cbn [repeat]; constructor; [exact IH|].
  apply Forall_forall. intros x Hx. apply repeat_spec in Hx. lia.
Qed.

Lemma np_repeat_ascending (n a k : nat) :
  StronglySorted le (np_repeat (seq a k) n).
Proof.
  revert a; induction k as [|k IH]; intros a; [constructor|].
  cbn [seq]. unfold np_repeat; cbn [flat_map]. fold (np_repeat (seq (S a) k) n).
  apply StronglySorted_app.
  - apply repeat_ascending.
  - apply IH.
  - intros x y Hx Hy. apply repeat_spec in Hx.
    apply in_np_repeat, in_seq in Hy. lia.
Qed.



Lemma top_words_needs_frame (st st' : store F) (components r : ref) (n : nat) :
  top_words' components n st = Some (r, st') ->
  exists f, nth_error st components = Some (VFrame f).
Proof.
  unfold top_words, load_frame, load. unfold bind at 1 2.
  destruct (nth_error st components) as [[m|l|f|s|t]|]; cbn [lift ret];
    try discriminate. eauto.
Qed.

Lemma word_topic_needs_arguments (st st' : store F)
    (tfidf solution wordlist r : ref) :
  word_topic' tfidf solution wordlist st = Some (r, st') ->
  exists a b l,
    nth_error st tfidf = Some (VMatrix a)
    /\ nth_error st solution = Some (VMatrix b)
    /\ nth_error st wordlist = Some (VList F l).
Proof.
  unfold word_topic, load_matrix, load_list, load.
  unfold bind at 1 2.
  destruct (nth_error st tfidf) as [[a| | | |]|]; cbn [lift ret]; try discriminate.
  unfold bind at 1 2.
  destruct (nth_error st solution) as [[b| | | |]|]; cbn [lift ret];
    try discriminate.
  unfold bind at 1.
  destruct (matmul fzero fadd fmul (transpose fzero a) b) as [p|]; cbn [lift];
    try discriminate.
  unfold bind at 1 2.
  destruct (nth_error st wordlist) as [[|l| | |]|]; cbn [lift ret];
    try discriminate.
  eauto 6.
Qed.


(** C9.  Under the same conditions the Series has
    [components.shape[1] * n_top_words] entries; its index is the column
    numbers in ascending order, each [n_top_words] times. *)
Theorem top_words_index (st : store F) (components : ref) (f : frame F)
    (n_top_words : nat) :
  nth_error st components = Some (VFrame f) ->
  frame_ok f -> 1 <= n_top_words -> n_top_words <= length (index f) ->
  exists s,
    top_words' components n_top_words st = Some (length st, st ++ [VSeries F s])
    /\ length (cells s) = shape1 (data f) * n_top_words
    /\ length (labels s) = shape1 (data f) * n_top_words
    /\ labels s
       = flat_map (fun c => repeat c n_top_words) (seq 0 (shape1 (data f)))
    /\ (forall c, c < shape1 (data f) ->
                  count_occ Nat.eq_dec (labels s) c = n_top_words)
    /\ StronglySorted le (labels s).
Proof.
  intros Hst Hf H1 Hn.
  destruct (Nat.eq_dec n_top_words 1) as [->|Hne]; eexists; split.
  - rewrite top_words_run with (f := f) by exact Hst.
    rewrite top_words_value_one. reflexivity.
  - cbn [labels cells]. repeat split.
    + rewrite length_map, length_seq. lia.
    + now rewrite np_repeat_length, length_seq.
    + intros c Hc. apply count_np_repeat. lia.
    + apply np_repeat_ascending.
  - rewrite top_words_run with (f := f) by exact Hst.
    rewrite top_words_value_filled by (auto; lia). reflexivity.
  - cbn [labels cells]. repeat split.
    + rewrite length_flat_map.
      erewrite map_ext_in
        with (g := fun _ => n_top_words).
      * rewrite map_const, length_seq. 
        generalize (shape1 (data f)) as k. induction k; simpl; lia.
      * intros c _. rewrite length_map. now apply chosen_words_length.
    + now rewrite np_repeat_length, length_seq.
    + intros c Hc. apply count_np_repeat. lia.
    + apply np_repeat_ascending.
Qed.

(** C3.  For a term-document matrix and a document-topic matrix over the same
    documents and a word list with one word per term, [word_topic] returns a
    frame whose values are the product of the transposed term-document matrix
    with the document-topic matrix and whose index is the word list. *)
Theorem word_topic_product (st : store F) (tfidf solution wordlist : ref)
    (a b : ndarray F) (l : list str) :
  nth_error st tfidf = Some (VMatrix a) ->
  nth_error st solution = Some (VMatrix b) ->
  nth_error st wordlist = Some (VList F l) ->
  well_shaped a -> well_shaped b -> shape0 a = shape0 b ->
  length l = shape1 a ->
  exists f,
    word_topic' tfidf solution wordlist st = Some (length st, st ++ [VFrame f])
    /\ index f = l
    /\ matmul fzero fadd fmul (transpose fzero a) b = Some (data f)
    /\ shape0 (data f) = shape1 a /\ shape1 (data f) = shape1 b
    /\ forall i j, i < shape1 a -> j < shape1 b ->
                   get fzero (data f) i j = sum_products fzero fadd fmul a b i j.
Proof.
  intros Ha Hb Hl Wa Wb Hab Hlen.
  destruct (@matmul_transpose a b Wa Wb Hab) as (p & Hp & H0 & H1 & _ & Hget).
  exists {| index := l; data := p |}. split; [|now repeat split].
  rewrite word_topic_run with (a := a) (b := b) (l := l) by assumption.
  unfold word_topic_value, new_frame.
  rewrite Hp, Hlen, H0, Nat.eqb_refl. reflexivity.
Qed.

(** C10.  A call of [top_words] or of [word_topic] that returns leaves every
    object that was in the store as it was, its arguments among them; what it
    returns is a new object. *)
Theorem helpers_leave_arguments (st st' : store F) (components r : ref)
    (n_top_words : nat) (st2 st2' : store F)
    (tfidf solution wordlist r2 : ref) :
  top_words' components n_top_words st = Some (r, st') ->
  word_topic' tfidf solution wordlist st2 = Some (r2, st2') ->
  (firstn (length st) st' = st
   /\ nth_error st' components = nth_error st components
   /\ r = length st)
  /\ (firstn (length st2) st2' = st2
      /\ nth_error st2' tfidf = nth_error st2 tfidf
      /\ nth_error st2' solution = nth_error st2 solution
      /\ nth_error st2' wordlist = nth_error st2 wordlist
      /\ r2 = length st2).
Proof.
  intros Htw Hwt. split.
  - destruct (@top_words_needs_frame _ _ _ _ _ Htw) as [f Hf].
    rewrite top_words_run with (f := f) in Htw by exact Hf.
    destruct (top_words_value' f n_top_words); [|discriminate].
    injection Htw as <- <-.
    repeat split.
    + now rewrite firstn_app, Nat.sub_diag, firstn_all, app_nil_r.
    + rewrite Hf. now apply nth_error_old.
  - destruct (@word_topic_needs_arguments _ _ _ _ _ _ Hwt)
      as (a & b & l & Ha & Hb & Hl).
    rewrite word_topic_run with (a := a) (b := b) (l := l) in Hwt by assumption.
    destruct (word_topic_value' a b l); [|discriminate].
    injection Hwt as <- <-.
    repeat split.
    + now rewrite firstn_app, Nat.sub_diag, firstn_all, app_nil_r.
    + rewrite Ha. now apply nth_error_old.
    + rewrite Hb. now apply nth_error_old.
    + rewrite Hl. now apply nth_error_old.
Qed.

(** ** The three model cells *)

Variables lsa_fit_transform lda_fit_transform nmf_fit_transform :
  nat -> ndarray F -> ndarray F.

Local Abbreviation loadings_shown' :=
  (loadings_shown fzero fadd fmul isnan round2 str_float argsort).
Local Abbreviation compare_models' :=
  (compare_models fzero fadd fmul isnan round2 str_float argsort
     lsa_fit_transform lda_fit_transform nmf_fit_transform).


Lemma nth_error_new (st ext : store F) (k : nat) :
  nth_error (st ++ ext) (length st + k) = nth_error ext k.
Proof. rewrite nth_error_app2 by lia. f_equal. lia. Qed.

Lemma update_new (st ext : store F) (k : nat) (o : obj F) :
  update (length st + k) o (st ++ ext) = st ++ update k o ext.
Proof. induction st as [|a st IH]; simpl; [reflexivity | now rewrite IH]. Qed.

Lemma bind_assoc {A B C : Type} (m : M F A) (f : A -> M F B) (g : B -> M F C)
    (st : store F) :
  bind (bind m f) g st = bind m (fun a => bind (f a) g) st.
Proof. unfold bind. now destruct (m st) as [[a st']|]. Qed.

Lemma bind_ret {A B : Type} (a : A) (k : A -> M F B) (st : store F) :
  bind (ret a) k st = k a st.
Proof. reflexivity. Qed.

Lemma set_column_same (t : table) (nm name : str) (s0 s : series) :
  labels s = labels s0 ->
  set_column ((nm, s0) :: t) name s = Some (((nm, s0) :: t) ++ [(name, s)]).
Proof.
  intros H. unfold set_column.
  now destruct (list_eq_dec Nat.eq_dec (labels s) (labels s0)).
Qed.

Lemma filled_length (g : nat -> list str) (n k : nat) :
  (forall c, length (g c) = n) ->
  length (flat_map (fun c => map Str (g c)) (seq 0 k)) = k * n.
Proof.
  intros Hg. generalize 0 as a.
  induction k as [|k IH]; intros a; [reflexivity|].
  cbn [seq flat_map]. rewrite length_app, length_map, Hg, IH. simpl. lia.
Qed.

Lemma alloc_bind {A : Type} (o : obj F) (k : ref -> M F A) (st : store F) :
  bind (alloc o) k st = k (length st) (st ++ [o]).
Proof. reflexivity. Qed.

Lemma fit_transform_bind {A : Type} (st : store F) (x : ref) (m : ndarray F)
    (fit : nat -> ndarray F -> ndarray F) (n : nat) (k : ref -> M F A) :
  nth_error st x = Some (VMatrix m) ->
  bind (call_fit_transform fit n x) k st
  = k (length st) (st ++ [VMatrix (fit n m)]).
Proof.
  intros H. unfold call_fit_transform.
  unfold bind at 1. rewrite bind_load_matrix with (m := m) by exact H.
  reflexivity.
Qed.

Lemma word_topic_bind {A : Type} (st : store F) (tfidf solution wordlist : ref)
    (a b : ndarray F) (l : list str) (k : ref -> M F A) :
  nth_error st tfidf = Some (VMatrix a) ->
  nth_error st solution = Some (VMatrix b) ->
  nth_error st wordlist = Some (VList F l) ->
  bind (word_topic' tfidf solution wordlist) k st
  = match word_topic_value' a b l with
    | Some f => k (length st) (st ++ [VFrame f])
    | None => None
    end.
Proof.
  intros Ha Hb Hl. unfold bind at 1.
  rewrite word_topic_run with (a := a) (b := b) (l := l) by assumption.
  now destruct (word_topic_value' a b l).
Qed.

Lemma top_words_bind {A : Type} (st : store F) (components : ref) (f : frame F)
    (n : nat) (k : ref -> M F A) :
  nth_error st components = Some (VFrame f) ->
  bind (top_words' components n) k st
  = match top_words_value' f n with
    | Some s => k (length st) (st ++ [VSeries F s])
    | None => None
    end.
Proof.
  intros Hf. unfold bind at 1.
  rewrite top_words_run with (f := f) by exact Hf.
  now destruct (top_words_value' f n).
Qed.

Lemma set_item_bind {A : Type} (st : store F) (topwords value : ref)
    (name : str) (s : series) (t : table) (k : unit -> M F A) :
  nth_error st value = Some (VSeries F s) ->
  nth_error st topwords = Some (VTable F t) ->
  bind (set_item topwords name value) k st
  = match set_column t name s with
    | Some t' => k tt (update topwords (VTable F t') st)
    | None => None
    end.
Proof.
  intros Hs Ht. unfold set_item. unfold bind at 1.
  rewrite bind_load_series with (s := s) by exact Hs.
  unfold load_table, load. unfold bind at 1 2. rewrite Ht. cbn [ret].
  destruct (set_column t name s) as [t'|]; unfold bind at 1; cbn [lift];
    [|reflexivity].
  unfold store_at.
  replace (Nat.ltb topwords (length st)) with true; [reflexivity|].
  symmetry. apply Nat.ltb_lt, nth_error_Some. congruence.
Qed.

(** On the tf-idf matrix and the vocabulary of the vectorizer, the loadings
    of a model are there: ten strings for each of the eight topics. *)
Local Abbreviation cells_of f :=
  (flat_map (fun c => map Str (chosen_words' f n_top_words c)) (seq 0 ntopics)).

Lemma loadings_shown_filled (fit : nat -> ndarray F -> ndarray F)
    (x : ndarray F) (v : list str) :
  fits_documents fit -> well_shaped x ->
  length v = shape1 x -> n_top_words <= length v ->
  exists f,
    word_topic_value' x (fit ntopics x) v = Some f
    /\ length (cells_of f) = ntopics * n_top_words
    /\ top_words_value' f n_top_words
       = Some {| labels := np_repeat (seq 0 ntopics) n_top_words;
                 cells := flat_map
                            (fun c => map Str (chosen_words' f n_top_words c))
                            (seq 0 ntopics) |}.
Proof.
  intros Hfit Hx Hv Hn.
  destruct (Hfit ntopics x Hx) as (Wy & Hy0 & Hy1).
  destruct (@matmul_transpose x (fit ntopics x) Hx Wy (eq_sym Hy0))
    as (p & Hp & H0 & H1 & Wp & _).
  assert (Hok : frame_ok {| index := v; data := p |})
    by (split; [exact Wp | cbn [index data]; congruence]).
  exists {| index := v; data := p |}. split; [|split].
  - unfold word_topic_value, new_frame. now rewrite Hp, Hv, H0, Nat.eqb_refl.
  - apply filled_length. intros c. now apply chosen_words_length.
  - rewrite top_words_value_filled; cbn [index data].
    + now rewrite H1, Hy1.
    + exact Hok.
    + unfold n_top_words. lia.
    + exact Hn.
Qed.

Ltac store_shape :=
  repeat rewrite <- app_assoc;
  repeat rewrite length_app;
  cbn [length app];
  repeat rewrite <- Nat.add_assoc;
  cbn [Nat.add].

Ltac flatten := cbv beta iota; repeat rewrite bind_assoc; cbv beta iota.

Ltac store_lookup :=
  first
    [ eassumption
    | apply nth_error_old; eassumption
    | rewrite <- (Nat.add_0_r (length _)); rewrite nth_error_new; reflexivity
    | rewrite nth_error_new; reflexivity ].

(** C4.  For LSA, LDA and NMF alike the column of [topwords] is [top_words]
    with [n_top_words = 10] of [word_topic] on the one tf-idf matrix, the
    document-topic matrix of the model's [fit_transform] for [ntopics = 8]
    components, and the vocabulary: ten strings for each of eight topics. *)
Theorem models_compared_alike (st : store F) (news_train_tfidf vocabulary : ref)
    (x : ndarray F) (v : list str) :
  nth_error st news_train_tfidf = Some (VMatrix x) ->
  nth_error st vocabulary = Some (VList F v) ->
  well_shaped x -> length v = shape1 x -> n_top_words <= length v ->
  fits_documents lsa_fit_transform ->
  fits_documents lda_fit_transform ->
  fits_documents nmf_fit_transform ->
  exists topwords st' s_lsa s_lda s_nmf,
    compare_models' news_train_tfidf vocabulary st = Some (topwords, st')
    /\ nth_error st' topwords
       = Some (VTable F [(py "LSA", s_lsa); (py "LDA", s_lda); (py "NNMF", s_nmf)])
    /\ loadings_shown' lsa_fit_transform x v = Some s_lsa
    /\ loadings_shown' lda_fit_transform x v = Some s_lda
    /\ loadings_shown' nmf_fit_transform x v = Some s_nmf
    /\ Forall (fun s => labels s = np_repeat (seq 0 8) 10 /\ length (cells s) = 80)
         [s_lsa; s_lda; s_nmf]
    /\ nth_error st' news_train_tfidf = Some (VMatrix x).
Proof.
  intros Hx Hv Wx Hlen Hn Hlsa Hlda Hnmf.
  destruct (@loadings_shown_filled lsa_fit_transform x v Hlsa Wx Hlen Hn)
    as (f1 & Hf1 & Hc1 & Hs1).
  destruct (@loadings_shown_filled lda_fit_transform x v Hlda Wx Hlen Hn)
    as (f2 & Hf2 & Hc2 & Hs2).
  destruct (@loadings_shown_filled nmf_fit_transform x v Hnmf Wx Hlen Hn)
    as (f3 & Hf3 & Hc3 & Hs3).
  remember {| labels := np_repeat (seq 0 ntopics) n_top_words;
              cells := flat_map (fun c => map Str (chosen_words' f1 n_top_words c))
                         (seq 0 ntopics) |} as s1 eqn:E1.
  remember {| labels := np_repeat (seq 0 ntopics) n_top_words;
              cells := flat_map (fun c => map Str (chosen_words' f2 n_top_words c))
                         (seq 0 ntopics) |} as s2 eqn:E2.
  remember {| labels := np_repeat (seq 0 ntopics) n_top_words;
              cells := flat_map (fun c => map Str (chosen_words' f3 n_top_words c))
                         (seq 0 ntopics) |} as s3 eqn:E3.
  unfold compare_models, lsa_cell, lda_cell, nmf_cell.
  flatten.
  rewrite fit_transform_bind with (m := x) by store_lookup. flatten.
  rewrite word_topic_bind with (a := x) (b := lsa_fit_transform ntopics x) (l := v)
    by (store_shape; store_lookup).
  rewrite Hf1. flatten. rewrite alloc_bind. flatten. store_shape.
  rewrite top_words_bind with (f := f1) by store_lookup.
  rewrite Hs1. flatten. store_shape.
  rewrite set_item_bind with (s := s1) (t := []) by store_lookup.
  cbn [set_column]. rewrite update_new. cbn [update].
  rewrite bind_ret. flatten.
  (* LDA *)
  rewrite fit_transform_bind with (m := x) by store_lookup. flatten.
  rewrite word_topic_bind with (a := x) (b := lda_fit_transform ntopics x) (l := v)
    by (store_shape; store_lookup).
  rewrite Hf2. flatten. store_shape.
  rewrite top_words_bind with (f := f2) by store_lookup.
  rewrite Hs2. flatten. store_shape.
  rewrite set_item_bind with (s := s2) (t := [(py "LSA", s1)]) by store_lookup.
  rewrite set_column_same by (subst s1 s2; reflexivity).
  rewrite update_new. cbn [update app]. flatten.
  (* NNMF *)
  rewrite fit_transform_bind with (m := x) by store_lookup. flatten.
  rewrite word_topic_bind with (a := x) (b := nmf_fit_transform ntopics x) (l := v)
    by (store_shape; store_lookup).
  rewrite Hf3. flatten. store_shape.
  rewrite top_words_bind with (f := f3) by store_lookup.
  rewrite Hs3. flatten. store_shape.
  rewrite set_item_bind with (s := s3) (t := [(py "LSA", s1); (py "LDA", s2)])
    by store_lookup.
  rewrite set_column_same by (subst s1 s3; reflexivity).
  rewrite update_new. cbn [update app].
  eexists _, _, s1, s2, s3. split; [reflexivity|].
  split; [rewrite nth_error_new; reflexivity|].
  unfold loadings_shown. rewrite Hf1, Hf2, Hf3.
  repeat (split; [assumption|]).
  split; [|now apply nth_error_old].
  subst s1 s2 s3. repeat constructor; assumption.
Qed.

(** ** More on top_words and word_topic *)

Lemma assign_cells_short (label n : nat) (labs : list nat) (cs : list cell)
    (new : list str) :
  length new < n -> assign_cells label (repeat label n ++ labs) cs new = None.
Proof.
  revert cs new; induction n as [|n IH]; intros cs new Hlen; [lia|].
  cbn [repeat app assign_cells]. destruct cs as [|v cs]; [reflexivity|].
  rewrite Nat.eqb_refl. destruct new as [|x new]; [reflexivity|].
  rewrite IH; [reflexivity | simpl in Hlen; lia].
Qed.

Lemma loc_assign_short (n a : nat) (rest : list nat) (cs : list cell)
    (new : list str) :
  2 <= n -> length new < n ->
  loc_assign_value {| labels := np_repeat (a :: rest) n; cells := cs |} a new
  = None.
Proof.
  intros Hn H. unfold loc_assign_value; cbn [labels cells].
  change (np_repeat (a :: rest) n) with (repeat a n ++ np_repeat rest n).
  rewrite assign_cells_short by exact H.
  rewrite count_occ_app, count_occ_repeat_eq by reflexivity.
  rewrite several_positions by lia. reflexivity.
Qed.

Lemma chosen_words_all (f : frame F) (n c : nat) :
  frame_ok f -> length (index f) <= n ->
  length (chosen_words' f n c) = length (index f).
Proof.
  intros Hf Hn. unfold chosen_words.
  rewrite length_map, length_firstn.
  rewrite (@sort_values_length F isnan argsort argsort_perm), iloc_column_length
    by exact Hf.
  lia.
Qed.

(** X9.  Asked for two words or more, and for more words than the frame
    has rows, [top_words] raises (on a frame with at least one column): the
    strings of the first column are fewer than the positions they go to. *)
Theorem top_words_too_many_words (st : store F) (components : ref)
    (f : frame F) (n_top_words : nat) :
  nth_error st components = Some (VFrame f) ->
  frame_ok f -> 1 <= shape1 (data f) ->
  2 <= n_top_words -> length (index f) < n_top_words ->
  top_words' components n_top_words st = None.
Proof.
  intros Hst Hf Hcols H2 Hn.
  rewrite top_words_run with (f := f) by exact Hst.
  unfold top_words_value. fold (fill_step (chosen_words' f n_top_words)).
  assert (Hshort : length (chosen_words' f n_top_words 0) < n_top_words)
    by (rewrite chosen_words_all by (auto; lia); exact Hn).
  destruct (shape1 (data f)) as [|k]; [lia|].
  cbn [seq fold_left].
  replace (fill_step _ _ 0) with (@None series);
    [now rewrite fill_step_none|].
  symmetry. unfold fill_step, empty_series. now apply loc_assign_short.
Qed.

Lemma firstn_map_Str (n : nat) (l : list str) :
  firstn n (map Str l) = map Str (firstn n l).
Proof.
  revert l; induction n as [|n IH]; intros [|x l]; simpl; try reflexivity.
  now rewrite IH.
Qed.

Lemma chosen_words_prefix (f : frame F) (n m c : nat) :
  n <= m -> chosen_words' f n c = firstn n (chosen_words' f m c).
Proof.
  intros Hnm. unfold chosen_words.
  set (l := sort_values_desc isnan argsort _).
  revert n m Hnm. induction l as [|x l IH]; intros n m Hnm.
  - now rewrite !firstn_nil.
  - destruct n as [|n]; [reflexivity|]. destruct m as [|m]; [lia|].
    cbn [firstn map]. f_equal. apply IH. lia.
Qed.

(** X10.  The words listed for a topic when [n >= 2] are asked for are the
    first [n] of those listed when [m >= n] are asked for. *)
Theorem top_words_prefix (st : store F) (components : ref) (f : frame F)
    (n m : nat) :
  nth_error st components = Some (VFrame f) ->
  frame_ok f -> 2 <= n -> n <= m -> m <= length (index f) ->
  exists s_n s_m,
    top_words' components n st = Some (length st, st ++ [VSeries F s_n])
    /\ top_words' components m st = Some (length st, st ++ [VSeries F s_m])
    /\ forall c, c < shape1 (data f) ->
                 loc_get s_n c = firstn n (loc_get s_m c).
Proof.
  intros Hst Hf H1 Hnm Hm.
  eexists _, _. split; [|split].
  - rewrite top_words_run with (f := f) by exact Hst.
    rewrite top_words_value_filled by (auto; lia). reflexivity.
  - rewrite top_words_run with (f := f) by exact Hst.
    rewrite top_words_value_filled by (auto; lia). reflexivity.
  - intros c Hc.
    rewrite (@loc_get_filled (fun c => map Str (chosen_words' f n c)) n)
      by (try lia; intros x _; rewrite length_map;
          apply chosen_words_length; auto; lia).
    rewrite (@loc_get_filled (fun c => map Str (chosen_words' f m c)) m)
      by (try lia; intros x _; rewrite length_map;
          apply chosen_words_length; auto; lia).
    rewrite firstn_map_Str. f_equal. now apply chosen_words_prefix.
Qed.

Lemma nth_error_combine {X Y : Type} (l : list X) (k : list Y) (i : nat)
    (x : X) (y : Y) :
  nth_error (combine l k) i = Some (x, y) ->
  nth_error l i = Some x /\ nth_error k i = Some y.
Proof.
  revert k i; induction l as [|a l IH]; intros [|b k] [|i]; simpl;
    try discriminate.
  - intros [= <- <-]. auto.
  - apply IH.
Qed.

Lemma map_fst_combine {X Y : Type} (l : list X) (k : list Y) :
  length l = length k -> map fst (combine l k) = l.
Proof.
  revert k; induction l as [|a l IH]; intros [|b k] H; simpl in *;
    try discriminate; [reflexivity|].
  f_equal. apply IH. lia.
Qed.

Lemma NoDup_firstn {X : Type} (n : nat) (l : list X) :
  NoDup l -> NoDup (firstn n l).
Proof.
  intros H. rewrite <- (firstn_skipn n l) in H.
  now apply NoDup_app_remove_r in H.
Qed.

Lemma firstn_in {X : Type} (n : nat) (l : list X) (x : X) :
  In x (firstn n l) -> In x l.
Proof.
  intros H. rewrite <- (firstn_skipn n l). apply in_or_app. now left.
Qed.

(** The rows that [top_words] lists for column [c] of a frame. *)
Lemma listed_rows (f : frame F) (n c : nat) :
  frame_ok f -> 2 <= n -> n <= length (index f) -> c < shape1 (data f) ->
  exists chosen,
    loc_get {| labels := np_repeat (seq 0 (shape1 (data f))) n;
               cells := flat_map (fun c => map Str (chosen_words' f n c))
                          (seq 0 (shape1 (data f))) |} c
    = map (fun p => Str (label_and_loading round2 str_float p)) chosen
    /\ length chosen = n
    /\ Permutation (map fst (sort_values_desc isnan argsort
                               (combine (index f)
                                  (column_values fzero (data f) c))))
         (index f)
    /\ chosen = firstn n (sort_values_desc isnan argsort
                            (combine (index f) (column_values fzero (data f) c)))
    /\ Forall (fun p => exists i, nth_error (index f) i = Some (fst p)
                                  /\ snd p = get fzero (data f) i c) chosen.
Proof.
  intros Hf H1 Hn Hc.
  set (col := combine (index f) (column_values fzero (data f) c)).
  exists (firstn n (sort_values_desc isnan argsort col)).
  assert (Hcol : length col = length (index f))
    by (unfold col; now apply iloc_column_length).
  split; [|split; [|split; [|split]]].
  - rewrite (@loc_get_filled (fun c => map Str (chosen_words' f n c)) n)
      by (try lia; intros x _; rewrite length_map;
          now apply chosen_words_length).
    unfold chosen_words. fold col. now rewrite map_map.
  - apply firstn_length_le.
    rewrite (@sort_values_length F isnan argsort argsort_perm). lia.
  - rewrite (Permutation_map fst
               (@sort_values_perm F isnan argsort argsort_perm col)).
    unfold col. rewrite map_fst_combine; [reflexivity|].
    destruct Hf as [[Hrows _] Hidx]. unfold column_values.
    rewrite length_map. lia.
  - reflexivity.
  - apply Forall_forall. intros [w v] Hp.
    apply firstn_in in Hp.
    apply (Permutation_in _ (@sort_values_perm F isnan argsort argsort_perm col))
      in Hp.
    apply In_nth_error in Hp as [i Hi].
    apply nth_error_combine in Hi as [Hw Hv].
    exists i. split; [exact Hw|]. cbn [snd].
    rewrite <- nth_column. symmetry. now apply nth_error_nth.
Qed.

(** X11.  On a frame whose row labels are all different, [top_words] asked
    for two words or more lists no word twice for a topic, and every listed
    word is a row label. *)
Theorem top_words_no_repeats (st : store F) (components : ref) (f : frame F)
    (n_top_words : nat) :
  nth_error st components = Some (VFrame f) ->
  frame_ok f -> 2 <= n_top_words -> n_top_words <= length (index f) ->
  NoDup (index f) ->
  exists s,
    top_words' components n_top_words st = Some (length st, st ++ [VSeries F s])
    /\ forall c, c < shape1 (data f) ->
       exists chosen,
         loc_get s c
         = map (fun p => Str (fst p ++ py " " ++ str_float (round2 (snd p))))
             chosen
         /\ NoDup (map fst chosen)
         /\ forall w, In w (map fst chosen) -> In w (index f).
Proof.
  intros Hst Hf H1 Hn Hnd. eexists. split.
  - rewrite top_words_run with (f := f) by exact Hst.
    rewrite top_words_value_filled by assumption. reflexivity.
  - intros c Hc.
    destruct (listed_rows Hf H1 Hn Hc) as (chosen & Hget & _ & Hperm & -> & _).
    eexists. split; [exact Hget|].
    rewrite <- firstn_map. split.
    + apply NoDup_firstn.
      apply (Permutation_NoDup (Permutation_sym Hperm)), Hnd.
    + intros w Hw. apply firstn_in in Hw.
      now apply (Permutation_in _ Hperm).
Qed.

(** X12.  On two matrices and a list, [word_topic] returns exactly when the
    matrices have the same number of documents and the list has one word per
    term; otherwise it raises. *)
Theorem word_topic_returns_iff (st : store F) (tfidf solution wordlist : ref)
    (a b : ndarray F) (l : list str) :
  nth_error st tfidf = Some (VMatrix a) ->
  nth_error st solution = Some (VMatrix b) ->
  nth_error st wordlist = Some (VList F l) ->
  (word_topic' tfidf solution wordlist st <> None
   <-> shape0 a = shape0 b /\ length l = shape1 a).
Proof.
  intros Ha Hb Hl.
  rewrite word_topic_run with (a := a) (b := b) (l := l) by assumption.
  unfold word_topic_value, matmul, new_frame.
  cbn [transpose shape0 shape1].
  destruct (Nat.eqb_spec (shape0 a) (shape0 b)) as [E|E].
  - cbn [shape0]. destruct (Nat.eqb_spec (length l) (shape1 a)) as [E'|E'].
    + split; [intros _; split; assumption | discriminate].
    + split; [intros H; exfalso; apply H; reflexivity
             | intros [_ H]; contradiction].
  - split; [intros H; exfalso; apply H; reflexivity
           | intros [H _]; contradiction].
Qed.

(** X13.  [top_words], asked for two words or more, run on what
    [word_topic] returns: every entry listed
    under topic [c] is a word of the word list with the loading of that word
    on that topic, the sum over the documents of the products of its tf-idf
    weight and the document's weight on the topic. *)
Theorem listed_loadings_are_products (st : store F)
    (tfidf solution wordlist : ref) (a b : ndarray F) (l : list str)
    (n_top_words : nat) :
  nth_error st tfidf = Some (VMatrix a) ->
  nth_error st solution = Some (VMatrix b) ->
  nth_error st wordlist = Some (VList F l) ->
  well_shaped a -> well_shaped b -> shape0 a = shape0 b ->
  length l = shape1 a -> 2 <= n_top_words -> n_top_words <= length l ->
  exists f s,
    bind (word_topic' tfidf solution wordlist)
      (fun components => top_words' components n_top_words) st
    = Some (length st + 1, st ++ [VFrame f; VSeries F s])
    /\ forall c, c < shape1 b ->
       exists chosen,
         loc_get s c
         = map (fun p => Str (fst p ++ py " " ++ str_float (round2 (snd p))))
             chosen
         /\ length chosen = n_top_words
         /\ Forall (fun p => exists i,
                        i < shape1 a
                        /\ nth_error l i = Some (fst p)
                        /\ snd p = sum_products fzero fadd fmul a b i c)
              chosen.
Proof.
  intros Ha Hb Hl Wa Wb Hab Hlen H1 Hn.
  destruct (@matmul_transpose a b Wa Wb Hab) as (p & Hp & H0 & Hp1 & Wp & Hget).
  set (f := {| index := l; data := p |}).
  assert (Hf : frame_ok f) by (split; [exact Wp | cbn; congruence]).
  eexists f, _. split.
  - rewrite word_topic_bind with (a := a) (b := b) (l := l) by assumption.
    unfold word_topic_value, new_frame. rewrite Hp, Hlen, H0, Nat.eqb_refl.
    fold f. rewrite top_words_run with (f := f) by apply nth_error_last.
    rewrite top_words_value_filled by assumption.
    rewrite <- app_assoc, length_app. reflexivity.
  - intros c Hc. cbn [data f shape1] in *.
    assert (Hc' : c < shape1 (data f)) by (cbn; lia).
    destruct (listed_rows Hf H1 Hn Hc')
      as (chosen & Hget' & Hlength & _ & _ & Hall).
    exists chosen. split; [exact Hget'|]. split; [exact Hlength|].
    eapply Forall_impl; [|exact Hall].
    intros q (i & Hi & Hv). cbn [index data f] in *.
    assert (Hlt : i < shape1 a)
      by (rewrite <- Hlen; apply nth_error_Some; congruence).
    exists i. repeat split; auto. rewrite Hv. apply Hget; lia.
Qed.

(** ** The topics side by side *)

Lemma loc_get_length (s : series) (c : nat) :
  length (labels s) = length (cells s) ->
  length (loc_get s c) = count_occ Nat.eq_dec (labels s) c.
Proof.
  unfold loc_get. destruct s as [labs cs]; cbn [labels cells].
  revert cs; induction labs as [|x labs IH]; intros [|v cs] H;
    simpl in *; try discriminate; [reflexivity|].
  destruct (Nat.eqb_spec x c) as [->|Hne].
  - destruct (Nat.eq_dec c c); [|congruence]. simpl. f_equal. apply IH. lia.
  - destruct (Nat.eq_dec x c); [congruence|]. apply IH. lia.
Qed.

Lemma show_topics_from_run (st : store F) (topwords : ref) (t : table)
    (topics : list nat) :
  nth_error st topwords = Some (VTable F t) ->
  Forall (fun topic => table_loc t topic <> None) topics ->
  show_topics_from topwords topics st
  = Some (flat_map
            (fun topic =>
               [Line (py "Topic " ++ str_nat topic ++ py ":");
                Rows (map (fun col => (fst col, loc_get (snd col) topic)) t)])
            topics, st).
Proof.
  intros Ht Hall. induction Hall as [|topic topics Hloc _ IH]; [reflexivity|].
  cbn [show_topics_from flat_map]. cbv zeta.
  unfold load_table, load. unfold bind at 1 2. rewrite Ht. cbn [ret].
  unfold table_loc in *. destruct t as [|[name s0] t]; [congruence|].
  destruct (existsb (Nat.eqb topic) (labels s0)); [|congruence].
  unfold bind at 1. cbn [lift]. unfold bind at 1. rewrite IH. reflexivity.
Qed.

Lemma show_topics_from_missing (st : store F) (topwords : ref) (t : table)
    (topics : list nat) (x : nat) :
  nth_error st topwords = Some (VTable F t) ->
  In x topics -> table_loc t x = None ->
  show_topics_from topwords topics st = None.
Proof.
  intros Ht Hin Hx. induction topics as [|topic topics IH]; [contradiction|].
  cbn [show_topics_from]. cbv zeta.
  unfold load_table, load. unfold bind at 1 2. rewrite Ht. cbn [ret].
  destruct (table_loc t topic) as [rows|] eqn:E; unfold bind at 1; cbn [lift];
    [|reflexivity].
  destruct Hin as [->|Hin]; [congruence|].
  unfold bind at 1. now rewrite IH.
Qed.

(** X14.  On a table whose columns are indexed by [k >= ntopics] topic
    numbers, each [n >= 1] times, the last cell prints for every topic from 0
    to 7 its heading and then [n] rows under every column, and changes
    nothing. *)
Theorem show_topics_rows (st : store F) (topwords : ref) (t : table)
    (k n : nat) :
  nth_error st topwords = Some (VTable F t) ->
  t <> [] -> ntopics <= k -> 1 <= n ->
  Forall (fun col => labels (snd col) = np_repeat (seq 0 k) n
                     /\ length (cells (snd col)) = k * n) t ->
  show_topics topwords st
  = Some (flat_map
            (fun topic =>
               [Line (py "Topic " ++ str_nat topic ++ py ":");
                Rows (map (fun col => (fst col, loc_get (snd col) topic)) t)])
            (seq 0 8), st)
  /\ forall topic col, topic < 8 -> In col t ->
                       length (loc_get (snd col) topic) = n.
Proof.
  intros Ht Hne Hk Hn Hall. unfold ntopics in Hk. split.
  - unfold show_topics. apply show_topics_from_run; [exact Ht|].
    apply Forall_forall. intros topic Hin. apply in_seq in Hin.
    unfold ntopics in Hin.
    destruct t as [|[name s0] t']; [congruence|].
    apply Forall_cons_iff in Hall as [[Hlab _] _]. cbn [snd] in Hlab.
    unfold table_loc. rewrite Hlab.
    replace (existsb _ _) with true; [discriminate|].
    symmetry. apply existsb_exists. exists topic.
    split; [|apply Nat.eqb_refl].
    assert (Hcount := @count_np_repeat n 0 k topic ltac:(lia)).
    apply (count_occ_In Nat.eq_dec). lia.
  - intros topic col Htopic Hin.
    rewrite Forall_forall in Hall. destruct (Hall col Hin) as [Hlab Hlen].
    rewrite loc_get_length
      by (rewrite Hlab, Hlen, np_repeat_length, length_seq; reflexivity).
    rewrite Hlab. apply count_np_repeat. lia.
Qed.

(** X15.  On a table with fewer than [ntopics] topics in its index, or with
    no column at all, the last cell raises KeyError. *)
Theorem show_topics_missing_topic (st : store F) (topwords : ref) (t : table)
    (k n : nat) :
  nth_error st topwords = Some (VTable F t) ->
  k < ntopics ->
  Forall (fun col => labels (snd col) = np_repeat (seq 0 k) n) t ->
  show_topics topwords st = None.
Proof.
  intros Ht Hk Hall. unfold show_topics.
  apply show_topics_from_missing with (t := t) (x := k); [exact Ht | |].
  - apply in_seq. lia.
  - unfold table_loc. destruct t as [|[name s0] t']; [reflexivity|].
    apply Forall_cons_iff in Hall as [Hlab _]. cbn [snd] in Hlab. rewrite Hlab.
    replace (existsb _ _) with false; [reflexivity|].
    symmetry. apply not_true_iff_false. intros H.
    apply existsb_exists in H as (x & Hx & Hxk).
    apply Nat.eqb_eq in Hxk. subst x.
    apply in_np_repeat, in_seq in Hx. lia.
Qed.

End FrameFacts.


(* ================================================================== *)
(** * The regression notebook *)

Lemma chunks_length {A : Type} (n p : nat) (l : list A) :
  length (chunks n p l) = n.
Proof. revert l; induction n as [|n IH]; intros l; simpl; auto. Qed.

Lemma chunks_rows {A : Type} (n p : nat) (l : list A) :
  length l = n * p ->
  Forall (fun r => length r = p) (chunks n p l) /\ concat (chunks n p l) = l.
Proof.
  revert l; induction n as [|n IH]; intros l Hl; simpl in *.
  - destruct l; [split; constructor | discriminate].
  - destruct (IH (skipn p l)) as [H1 H2]; [rewrite length_skipn; lia|].
    split.
    + constructor; [apply firstn_length_le; lia | exact H1].
    + rewrite H2. apply firstn_skipn.
Qed.

Lemma combine_map_both {A B C : Type} (f : A -> B) (g : A -> C) (l : list A) :
  combine (map f l) (map g l) = map (fun x => (f x, g x)) l.
Proof. induction l as [|x l IH]; simpl; [reflexivity | now rewrite IH]. Qed.

Lemma combine_map_left {A B C : Type} (f : A -> B) (l : list A) (k : list C) :
  combine (map f l) k = map (fun q => (f (fst q), snd q)) (combine l k).
Proof.
  revert k; induction l as [|x l IH]; intros [|y k]; simpl;
    try reflexivity. now rewrite IH.
Qed.

Lemma combine_map_two {A B C D : Type} (f : A -> B) (g : C -> D)
    (l : list A) (k : list C) :
  combine (map f l) (map g k)
  = map (fun q => (f (fst q), g (snd q))) (combine l k).
Proof.
  revert k; induction l as [|x l IH]; intros [|y k]; simpl;
    try reflexivity. now rewrite IH.
Qed.

Section RegressionFacts.
Import Dimensionality_reduction.
Variable F : Type.
Variables fadd fmul : F -> F -> F.
Variable of_Z : Z -> F.
Variable rng : Type.
Variable random_normal : F -> F -> nat -> rng -> list F * rng.
Variables linear_model pls_model : Type.
Variable linear_fit : ndarray F -> list F -> linear_model.
Variable linear_score : linear_model -> ndarray F -> list F -> F.
Variable pls_fit : nat -> ndarray F -> list F -> pls_model.
Variable pls_score : pls_model -> ndarray F -> list F -> F.

(** numpy returns as many draws as it is asked for. *)
Hypothesis random_normal_size :
  forall loc scale k g, length (fst (random_normal loc scale k g)) = k.

(** C6.  The notebook draws 1000 x 10 standard-normal features and 1000
    noise values, builds y = X[:,0] + 2*X[:,1] + noise + 5, fits least
    squares on all ten features and PLSR with three components on the same
    (X, y), and prints the R-squared score of the one, then of the other. *)
Theorem regression_cells_run (g g1 g2 : rng) (draws noise : list F) :
  random_normal (of_Z 0) (of_Z 1) (1000 * 10) g = (draws, g1) ->
  random_normal (of_Z 0) (of_Z 1) 1000 g1 = (noise, g2) ->
  exists X y,
    cells fadd fmul of_Z random_normal linear_fit linear_score pls_fit pls_score g
    = Some ([Print (py "R-squared regression:")
               (linear_score (linear_fit X y) X y);
             Print (py "R-squared PLSR:")
               (pls_score (pls_fit 3 X y) X y)], g2)
    /\ shape0 X = 1000 /\ shape1 X = 10 /\ well_shaped X
    /\ concat (rows X) = draws
    /\ length y = 1000
    /\ y = map (fun q => outcome fadd fmul of_Z (fst q) (snd q))
             (combine (rows X) noise).
Proof.
  intros Hd He.
  pose proof (random_normal_size (of_Z 0) (of_Z 1) (1000 * 10) g) as Ld.
  pose proof (random_normal_size (of_Z 0) (of_Z 1) 1000 g1) as Le.
  rewrite Hd in Ld. rewrite He in Le. cbn [fst] in Ld, Le.
  destruct (chunks_rows 1000 10 draws Ld) as [Hrows Hcat].
  set (X := {| shape0 := 1000; shape1 := 10; rows := chunks 1000 10 draws |}).
  unfold cells. change (n * p) with (1000 * 10). change (n * 1) with 1000.
  rewrite Hd. unfold reshape. change n with 1000. change p with 10.
  rewrite Ld, Nat.eqb_refl. fold X. rewrite He.
  unfold vec_add, scalar_mul, add_scalar, column_values.
  rewrite !length_map, Nat.eqb_refl.
  rewrite map_map, combine_map_both, map_map. cbn [fst snd].
  rewrite length_map. cbn [rows X]. rewrite chunks_length, Le, Nat.eqb_refl.
  rewrite combine_map_left, !map_map. cbn [fst snd].
  eexists X, _. split; [reflexivity|].
  split; [reflexivity|]. split; [reflexivity|].
  split; [split; [apply chunks_length | exact Hrows]|].
  split; [exact Hcat|].
  split; [|reflexivity].
  rewrite length_map, length_combine. cbn [rows X].
  rewrite chunks_length, Le. reflexivity.
Qed.

(** X16.  Cells 6 to 10 on the X and y of the first cells: the two later
    outcomes are built from the same X with fresh noise, shifted by 100 and
    scaled by 500 before it is added; PLSR is fitted with two components
    three times, least squares twice, and five scores are printed. *)
Theorem later_cells_run (X : ndarray F) (y : list F) (g g1 g2 : rng)
    (noise1 noise2 : list F) :
  length (rows X) = 1000 ->
  random_normal (of_Z 0) (of_Z 1) 1000 g = (noise1, g1) ->
  random_normal (of_Z 0) (of_Z 1) 1000 g1 = (noise2, g2) ->
  exists y_new y_new_one,
    more_cells fadd fmul of_Z random_normal linear_fit linear_score
      pls_fit pls_score X y g
    = Some ([Print (py "R-squared PLSR:") (pls_score (pls_fit 2 X y) X y);
             Print (py "R-squared regression:")
               (linear_score (linear_fit X y_new) X y_new);
             Print (py "R-squared PLSR:")
               (pls_score (pls_fit 2 X y_new) X y_new);
             Print (py "R-squared regression:")
               (linear_score (linear_fit X y_new_one) X y_new_one);
             Print (py "R-squared PLSR:")
               (pls_score (pls_fit 2 X y_new_one) X y_new_one)], g2)
    /\ length y_new = 1000 /\ length y_new_one = 1000
    /\ y_new = map (fun q => outcome_new fadd fmul of_Z (fst q) (snd q))
                 (combine (rows X) noise1)
    /\ y_new_one = map (fun q => outcome_new_one fadd fmul of_Z (fst q) (snd q))
                     (combine (rows X) noise2).
Proof.
  intros HX H1 H2.
  pose proof (random_normal_size (of_Z 0) (of_Z 1) 1000 g) as L1.
  pose proof (random_normal_size (of_Z 0) (of_Z 1) 1000 g1) as L2.
  rewrite H1 in L1. rewrite H2 in L2. cbn [fst] in L1, L2.
  unfold more_cells. change (n * 1) with 1000. rewrite H1.
  unfold vec_add, scalar_mul, add_scalar, mul_scalar, column_values.
  rewrite !length_map, Nat.eqb_refl.
  rewrite map_map, combine_map_both, map_map. cbn [fst snd].
  rewrite !length_map, HX, L1, Nat.eqb_refl. rewrite H2. cbv beta iota.
  rewrite ?length_map, ?HX, L2, Nat.eqb_refl.
  rewrite combine_map_left, combine_map_two, !map_map. cbn [fst snd].
  eexists _, _. split; [reflexivity|].
  split; [now rewrite length_map, length_combine, HX, L1|].
  split; [now rewrite length_map, length_combine, HX, L2|].
  split; reflexivity.
Qed.


End RegressionFacts.


(* ================================================================== *)
(** * Sentences of the parsed text *)

Section SentenceFacts.
Variable lower : str -> str.

Lemma fold_left_snoc {A B : Type} (g : A -> B) (l : list A) (acc : list B) :
  fold_left (fun out x => out ++ [g x]) l acc = acc ++ map g l.
Proof.
  revert acc; induction l as [|x l IH]; intros acc; simpl.
  - now rewrite app_nil_r.
  - rewrite IH, <- app_assoc. reflexivity.
Qed.

Lemma organize_map (sents : list (list token)) :
  organize lower sents
  = map (fun sentence =>
           map (fun token => lower (lemma_ token))
             (filter (fun token => negb (is_stop token) && negb (is_punct token))
                sentence))
      sents.
Proof. unfold organize. cbv zeta. now rewrite fold_left_snoc. Qed.

(** X7.  The loop gives one list per sentence, in the order of the
    sentences, also for a sentence that loses all its tokens.  The list of a
    sentence is the lower-case lemmas of its tokens that are neither stop
    words nor punctuation, in the order of the tokens and as often as they
    occur, and nothing else. *)
Theorem organize_keeps_sentences (sents : list (list token)) :
  length (organize lower sents) = length sents
  /\ forall i sentence,
       nth_error sents i = Some sentence ->
       exists out,
         nth_error (organize lower sents) i = Some out
         /\ out = map (fun token => lower (lemma_ token))
                    (filter (fun token =>
                               negb (is_stop token) && negb (is_punct token))
                       sentence)
         /\ length out <= length sentence
         /\ forall w,
              In w out
              <-> exists t, In t sentence /\ is_stop t = false
                            /\ is_punct t = false /\ w = lower (lemma_ t).
Proof.
  rewrite organize_map. split; [apply length_map|].
  intros i sentence Hi. eexists. split; [|split; [|split]].
  - rewrite nth_error_map, Hi. reflexivity.
  - reflexivity.
  - rewrite length_map. apply filter_length_le.
  - intros w. rewrite in_map_iff. split.
    + intros (t & <- & Ht). apply filter_In in Ht as [Hin Hk].
      apply andb_prop in Hk as [Hs Hp]. apply negb_true_iff in Hs, Hp.
      exists t. auto.
    + intros (t & Hin & Hs & Hp & ->). exists t. split; [reflexivity|].
      apply filter_In. split; [exact Hin|]. now rewrite Hs, Hp.
Qed.

(** X8.  Cell 8 raises IndexError on a parsed text of fewer than 21
    sentences.  Otherwise it prints sentence 20 and a line with the number of
    sentences of the parsed text and, as the number of tokens, the number of
    characters of the cleaned text. *)
Theorem sentences_cell_prints (austen_clean : str) (sents : list (list token)) :
  (length sents <= 20 -> sentences_cell lower austen_clean sents = None)
  /\ (21 <= length sents ->
      exists sentence20,
        nth_error (organize lower sents) 20 = Some sentence20
        /\ sentences_cell lower austen_clean sents
           = Some [PrintWords sentence20;
                   PrintLine (py "We have " ++ str_nat (length sents)
                              ++ py " sentences and "
                              ++ str_nat (length austen_clean)
                              ++ py " tokens.")]).
Proof.
  assert (Hlen : length (organize lower sents) = length sents)
    by (rewrite organize_map; apply length_map).
  unfold sentences_cell. cbv zeta. split.
  - intros H.
    replace (nth_error (organize lower sents) 20) with (@None (list str));
      [reflexivity|].
    symmetry. apply nth_error_None. lia.
  - intros H.
    destruct (nth_error (organize lower sents) 20) as [s20|] eqn:E.
    + exists s20. rewrite Hlen. auto.
    + apply nth_error_None in E. lia.
Qed.

End SentenceFacts.

(* ================================================================== *)
(** * The helpers on sample data *)

Lemma z_insert_perm (l : list Z) (i : nat) (sorted : list nat) :
  Permutation (z_insert l i sorted) (i :: sorted).
Proof.
  induction sorted as [|j rest IH]; simpl; [reflexivity|].
  destruct (Z.leb (nth i l 0%Z) (nth j l 0%Z)); [reflexivity|].
  rewrite IH. apply perm_swap.
Qed.

Lemma z_argsort_perm (l : list Z) :
  Permutation (z_argsort l) (seq 0 (length l)).
Proof.
  unfold z_argsort. induction (seq 0 (length l)) as [|i idx IH]; simpl;
    [constructor|].
  rewrite z_insert_perm. now constructor.
Qed.

Lemma z_insert_sorted (l : list Z) (i : nat) (sorted : list nat) :
  StronglySorted (fun a b => (nth a l 0 <= nth b l 0)%Z) sorted ->
  StronglySorted (fun a b => (nth a l 0 <= nth b l 0)%Z) (z_insert l i sorted).
Proof.
  induction 1 as [|j rest Hs IH Hj]; simpl; [repeat constructor|].
  destruct (Z.leb_spec (nth i l 0%Z) (nth j l 0%Z)) as [Hle|Hgt].
  - constructor; [now constructor|].
    constructor; [exact Hle|].
    rewrite Forall_forall in *. intros b Hb. specialize (Hj b Hb). lia.
  - constructor; [exact IH|].
    apply (Permutation_Forall (Permutation_sym (z_insert_perm l i rest))).
    constructor; [lia | exact Hj].
Qed.

Lemma take_in_range {A : Type} (l : list A) (d : A) (idx : list nat) :
  Forall (fun i => i < length l) idx ->
  take l idx = map (fun i => nth i l d) idx.
Proof.
  induction 1 as [|i idx Hi _ IH]; [reflexivity|].
  unfold take in *; cbn [flat_map map]. rewrite IH.
  now rewrite (nth_error_nth' l d Hi).
Qed.

Lemma StronglySorted_map {A B : Type} (R : B -> B -> Prop) (f : A -> B)
    (l : list A) :
  StronglySorted (fun a b => R (f a) (f b)) l -> StronglySorted R (map f l).
Proof.
  induction 1 as [|a l Hs IH Ha]; cbn [map]; constructor; [exact IH|].
  now apply Forall_map.
Qed.

Lemma z_argsort_sorted (l : list Z) :
  Forall (fun x => z_isnan x = false) l ->
  StronglySorted (fun x y => Z.leb x y = true) (take l (z_argsort l)).
Proof.
  intros _. rewrite take_in_range with (d := 0%Z).
  - apply StronglySorted_map.
    apply StronglySorted_weaken
      with (R := fun a b => (nth a l 0 <= nth b l 0)%Z) (P := fun _ => True).
    + intros a b _ _ H. now apply Z.leb_le.
    + apply Forall_forall. auto.
    + unfold z_argsort. induction (seq 0 (length l)) as [|i idx IH]; simpl;
        [constructor | now apply z_insert_sorted].
  - apply Forall_forall. intros i Hi.
    apply (Permutation_in _ (z_argsort_perm l)), in_seq in Hi. lia.
Qed.

Lemma sample_fit_documents (shift : Z) : fits_documents (sample_fit shift).
Proof.
  intros k x [Hx _]. unfold sample_fit, well_shaped; cbn [shape0 shape1 rows].
  repeat split.
  - now rewrite length_map.
  - apply Forall_map, Forall_forall. intros r _.
    now rewrite length_map, length_seq.
Qed.

Lemma z_normal_size (loc scale : Z) (k g : nat) :
  length (fst (z_normal loc scale k g)) = k.
Proof. unfold z_normal; cbn [fst]. now rewrite length_map, length_seq. Qed.



Lemma top_words_index_witness :
  exists s,
    top_words 0%Z z_isnan z_round2 z_str z_argsort 0 2 sample_store
    = Some (4, sample_store ++ [VSeries Z s])
    /\ labels s = [0; 0; 1; 1]
    /\ length (cells s) = 4.
Proof.
  destruct (@top_words_index Z 0%Z z_isnan z_round2 z_str z_argsort
              z_argsort_perm sample_store 0 sample_frame 2)
    as (s & Hrun & Hcells & _ & Hlabels & _).
  - reflexivity.
  - split; [split; [reflexivity | repeat constructor] | reflexivity].
  - lia.
  - simpl; lia.
  - exists s. repeat split; assumption.
Defined.

Lemma word_topic_product_witness :
  exists f,
    word_topic 0%Z Z.add Z.mul 1 2 3 sample_store
    = Some (4, sample_store ++ [VFrame f])
    /\ index f = [py "car"; py "god"; py "space"]
    /\ rows (data f) = [[1; 2]; [9; 12]; [5; 8]]%Z.
Proof.
  destruct (@word_topic_product Z 0%Z Z.add Z.mul sample_store 1 2 3
              sample_tfidf sample_solution [py "car"; py "god"; py "space"])
    as (f & Hrun & Hindex & Hdata & _); try reflexivity.
  - split; [reflexivity | repeat constructor].
  - split; [reflexivity | repeat constructor].
  - exists f. repeat split; try assumption.
    assert (E : matmul 0%Z Z.add Z.mul (transpose 0%Z sample_tfidf) sample_solution
                = Some {| shape0 := 3; shape1 := 2;
                          rows := [[1; 2]; [9; 12]; [5; 8]]%Z |})
      by reflexivity.
    rewrite E in Hdata. injection Hdata as Hd. now rewrite <- Hd.
Defined.

Lemma helpers_leave_arguments_witness :
  nth_error (sample_store
             ++ [VSeries Z {| labels := [0; 0; 1; 1];
                              cells := map Str [py "god 7"; py "car 5";
                                                py "god 9"; py "space 4"] |}]) 0
  = nth_error sample_store 0
  /\ nth_error (sample_store
                ++ [VFrame {| index := [py "car"; py "god"; py "space"];
                              data := {| shape0 := 3; shape1 := 2;
                                         rows := [[1; 2]; [9; 12]; [5; 8]]%Z |} |}]) 1
     = nth_error sample_store 1.
Proof.
  destruct (@helpers_leave_arguments Z 0%Z Z.add Z.mul z_isnan z_round2 z_str
              z_argsort sample_store
              (sample_store
               ++ [VSeries Z {| labels := [0; 0; 1; 1];
                                cells := map Str [py "god 7"; py "car 5";
                                                  py "god 9"; py "space 4"] |}])
              0 4 2 sample_store
              (sample_store
               ++ [VFrame {| index := [py "car"; py "god"; py "space"];
                             data := {| shape0 := 3; shape1 := 2;
                                        rows := [[1; 2]; [9; 12]; [5; 8]]%Z |} |}])
              1 2 3 4)
    as [(_ & H1 & _) (_ & H2 & _)].
  - vm_compute. reflexivity.
  - vm_compute. reflexivity.
  - split; [exact H1 | exact H2].
Defined.

Lemma models_compared_alike_witness :
  exists topwords st' s_lsa s_lda s_nmf,
    compare_models 0%Z Z.add Z.mul z_isnan z_round2 z_str z_argsort
      (sample_fit 0) (sample_fit 1) (sample_fit 2) 0 1 sample_news_store
    = Some (topwords, st')
    /\ nth_error st' topwords
       = Some (VTable Z [(py "LSA", s_lsa); (py "LDA", s_lda); (py "NNMF", s_nmf)])
    /\ length (cells s_lsa) = 80 /\ length (cells s_lda) = 80
    /\ length (cells s_nmf) = 80.
Proof.
  destruct (@models_compared_alike Z 0%Z Z.add Z.mul z_isnan z_round2 z_str
              z_argsort z_argsort_perm
              (sample_fit 0) (sample_fit 1) (sample_fit 2)
              sample_news_store 0 1 sample_news sample_vocabulary)
    as (tw & st' & s1 & s2 & s3 & Hrun & Htab & _ & _ & _ & Hall & _);
    try reflexivity; try apply sample_fit_documents.
  - split; [reflexivity | repeat constructor].
  - exists tw, st', s1, s2, s3.
    repeat split; try assumption;
      repeat (apply Forall_cons_iff in Hall as [[_ ?] Hall]); assumption.
Defined.

Lemma regression_cells_run_witness :
  exists (X : ndarray Z) (y : list Z),
    Dimensionality_reduction.cells Z.add Z.mul (fun z => z) z_normal
      (fun _ _ => tt) (fun _ _ _ => 0%Z) (fun _ _ _ => tt) (fun _ _ _ => 1%Z) 0
    = Some ([Dimensionality_reduction.Print (py "R-squared regression:") 0%Z;
             Dimensionality_reduction.Print (py "R-squared PLSR:") 1%Z], 11000)
    /\ shape0 X = 1000 /\ shape1 X = 10 /\ length y = 1000.
Proof.
  destruct (@regression_cells_run Z Z.add Z.mul (fun z => z) nat z_normal
              unit unit (fun _ _ => tt) (fun _ _ _ => 0%Z)
              (fun _ _ _ => tt) (fun _ _ _ => 1%Z) z_normal_size
              0 10000 11000
              (fst (z_normal 0 1 10000 0)) (fst (z_normal 0 1 1000 10000)))
    as (X & y & Hrun & H0 & H1 & _ & _ & Hy & _).
  - reflexivity.
  - reflexivity.
  - exists X, y. repeat split; assumption.
Defined.

Lemma text_cleaner_spacing_witness :
  py "a b" = text_cleaner ascii_decimal (py " a--" ++ [ch_newline] ++ py "b ").
Proof.
  destruct (text_cleaner_spacing ascii_decimal
              (py " a--" ++ [ch_newline] ++ py "b "))
    as (_ & _ & _ & _ & _ & _ & Honly).
  apply Honly; reflexivity.
Defined.

Lemma text_cleaner_of_blank_witness :
  text_cleaner ascii_decimal (py "  " ++ [ch_newline]) = [].
Proof. apply (text_cleaner_of_blank ascii_decimal). reflexivity. Defined.

Lemma text_cleaner_passes_plain_text_witness :
  text_cleaner ascii_decimal (py " Emma  Woodhouse ") = py "Emma Woodhouse".
Proof.
  rewrite (text_cleaner_passes_plain_text ascii_decimal); reflexivity.
Defined.

Lemma sample_frame_ok : frame_ok sample_frame.
Proof. split; [split; [reflexivity | repeat constructor] | reflexivity]. Qed.

Lemma top_words_too_many_words_witness :
  top_words 0%Z z_isnan z_round2 z_str z_argsort 0 4 sample_store = None.
Proof.
  apply (@top_words_too_many_words Z 0%Z z_isnan z_round2 z_str z_argsort
           z_argsort_perm sample_store 0 sample_frame 4).
  - reflexivity.
  - exact sample_frame_ok.
  - simpl; lia.
  - lia.
  - simpl; lia.
Defined.

Lemma top_words_prefix_witness :
  exists s_n s_m,
    top_words 0%Z z_isnan z_round2 z_str z_argsort 0 2 sample_store
    = Some (4, sample_store ++ [VSeries Z s_n])
    /\ top_words 0%Z z_isnan z_round2 z_str z_argsort 0 3 sample_store
       = Some (4, sample_store ++ [VSeries Z s_m])
    /\ loc_get s_n 0 = firstn 2 (loc_get s_m 0)
    /\ loc_get s_m 0 = [Str (py "god 7"); Str (py "car 5"); Str (py "space 2")].
Proof.
  destruct (@top_words_prefix Z 0%Z z_isnan z_round2 z_str z_argsort
              z_argsort_perm sample_store 0 sample_frame 2 3)
    as (s_n & s_m & Hn & Hm & Hpre).
  - reflexivity.
  - exact sample_frame_ok.
  - lia.
  - lia.
  - simpl; lia.
  - exists s_n, s_m. split; [exact Hn|]. split; [exact Hm|].
    split; [apply Hpre; simpl; lia|].
    vm_compute in Hm. injection Hm as <-. reflexivity.
Defined.

Lemma top_words_no_repeats_witness :
  exists s,
    top_words 0%Z z_isnan z_round2 z_str z_argsort 0 2 sample_store
    = Some (4, sample_store ++ [VSeries Z s])
    /\ exists chosen,
         loc_get s 0 = map (fun p => Str (fst p ++ py " " ++ z_str (snd p))) chosen
         /\ NoDup (map fst chosen).
Proof.
  destruct (@top_words_no_repeats Z 0%Z z_isnan z_round2 z_str z_argsort
              z_argsort_perm sample_store 0 sample_frame 2)
    as (s & Hrun & Hcols).
  - reflexivity.
  - exact sample_frame_ok.
  - lia.
  - simpl; lia.
  - simpl. repeat constructor; simpl; intuition discriminate.
  - exists s. split; [exact Hrun|].
    destruct (Hcols 0) as (chosen & Hget & Hnd & _); [simpl; lia|].
    exists chosen. split; assumption.
Defined.

Lemma word_topic_returns_iff_witness :
  word_topic 0%Z Z.add Z.mul 1 2 3 sample_store <> None
  /\ word_topic 0%Z Z.add Z.mul 2 1 3 sample_store = None.
Proof.
  split.
  - apply (@word_topic_returns_iff Z 0%Z Z.add Z.mul sample_store 1 2 3
             sample_tfidf sample_solution [py "car"; py "god"; py "space"]);
      try reflexivity.
    split; reflexivity.
  - reflexivity.
Defined.

Lemma listed_loadings_are_products_witness :
  exists f s,
    bind (word_topic 0%Z Z.add Z.mul 1 2 3)
      (fun components =>
         top_words 0%Z z_isnan z_round2 z_str z_argsort components 2)
      sample_store
    = Some (5, sample_store ++ [VFrame f; VSeries Z s])
    /\ loc_get s 0 = [Str (py "god 9"); Str (py "space 5")].
Proof.
  destruct (@listed_loadings_are_products Z 0%Z Z.add Z.mul z_isnan z_round2
              z_str z_argsort z_argsort_perm sample_store 1 2 3
              sample_tfidf sample_solution [py "car"; py "god"; py "space"] 2)
    as (f & s & Hrun & _); try reflexivity.
  - split; [reflexivity | repeat constructor].
  - split; [reflexivity | repeat constructor].
  - simpl; lia.
  - exists f, s. split; [exact Hrun|].
    vm_compute in Hrun. injection Hrun as <- <-. reflexivity.
Defined.

Lemma show_topics_rows_witness :
  exists out,
    show_topics 0 sample_table_store = Some (out, sample_table_store)
    /\ length out = 16
    /\ nth_error out 2 = Some (Line (py "Topic 1:"))
    /\ nth_error out 3 = Some (Rows [(py "LSA", [Str (py "b")])]).
Proof.
  destruct (@show_topics_rows Z sample_table_store 0 sample_topwords 8 1)
    as [Hrun _].
  - reflexivity.
  - discriminate.
  - reflexivity.
  - lia.
  - repeat constructor.
  - eexists. split; [exact Hrun|]. repeat split.
Defined.

Lemma show_topics_missing_topic_witness :
  show_topics 1 sample_table_store = None.
Proof.
  apply (@show_topics_missing_topic Z sample_table_store 1 sample_two_topics 2 2).
  - reflexivity.
  - unfold ntopics; lia.
  - repeat constructor.
Defined.

Lemma organize_keeps_sentences_witness :
  nth_error (organize ascii_lower [sample_sentence; [] ]) 0
  = Some [py "daughter"]
  /\ length (organize ascii_lower [sample_sentence; [] ]) = 2.
Proof.
  destruct (organize_keeps_sentences ascii_lower [sample_sentence; [] ])
    as [Hlen Hall].
  destruct (Hall 0 sample_sentence eq_refl) as (out & Hout & Heq & _).
  split; [|exact Hlen]. rewrite Hout, Heq. reflexivity.
Defined.

Lemma sentences_cell_prints_witness :
  sentences_cell ascii_lower (py "cleaned") (repeat sample_sentence 20) = None
  /\ sentences_cell ascii_lower (py "cleaned") (repeat sample_sentence 21)
     = Some [PrintWords [py "daughter"];
             PrintLine (py "We have 21 sentences and 7 tokens.")].
Proof.
  split.
  - apply (proj1 (sentences_cell_prints ascii_lower (py "cleaned")
                    (repeat sample_sentence 20))).
    simpl; lia.
  - destruct (proj2 (sentences_cell_prints ascii_lower (py "cleaned")
                       (repeat sample_sentence 21)))
      as (s20 & H20 & Hcell); [simpl; lia|].
    rewrite Hcell. vm_compute in H20. injection H20 as <-. reflexivity.
Defined.

Lemma later_cells_run_witness :
  exists (y_new y_new_one : list Z),
    Dimensionality_reduction.more_cells Z.add Z.mul (fun z => z) z_normal
      (fun _ _ => tt) (fun _ _ _ => 0%Z) (fun _ _ _ => tt) (fun _ _ _ => 1%Z)
      sample_X [] 11000
    = Some ([Dimensionality_reduction.Print (py "R-squared PLSR:") 1%Z;
             Dimensionality_reduction.Print (py "R-squared regression:") 0%Z;
             Dimensionality_reduction.Print (py "R-squared PLSR:") 1%Z;
             Dimensionality_reduction.Print (py "R-squared regression:") 0%Z;
             Dimensionality_reduction.Print (py "R-squared PLSR:") 1%Z], 13000)
    /\ length y_new = 1000 /\ length y_new_one = 1000.
Proof.
  destruct (@later_cells_run Z Z.add Z.mul (fun z => z) nat z_normal
              unit unit (fun _ _ => tt) (fun _ _ _ => 0%Z)
              (fun _ _ _ => tt) (fun _ _ _ => 1%Z) z_normal_size
              sample_X [] 11000 12000 13000
              (fst (z_normal 0 1 1000 11000)) (fst (z_normal 0 1 1000 12000)))
    as (y1 & y2 & Hrun & H1 & H2 & _).
  - apply chunks_length.
  - reflexivity.
  - reflexivity.
  - exists y1, y2. repeat split; assumption.
Defined.
